(** * SafeTalk call core: [WebRTCCallManager] and its UI coordinator

    A shallow embedding of [static/js/webrtc.js] (class [WebRTCCallManager])
    and of [staticfiles/js/drag-drop.js]: class [VideoCallUI] (the
    call-state wiring, the call controls, the incoming-call modal and the
    call timer) and the validation of uploaded files ([handleFiles]).

    JavaScript values are a small algebraic type, objects are association
    lists in property order, the methods are programs of a state-and-exception
    monad over the manager's fields, the heap of media tracks and a
    chronological trace of the effects that leave the manager (messages
    sent, connections closed, tracks stopped, subscriber notifications,
    console output).  What the browser decides (media permission, session
    descriptions, ICE) enters through a [Platform] record of oracles. *)

From stdpp Require Import base strings list gmap pretty.
From Stdlib Require Import ZArith.

Set Default Proof Using "Type".
Local Set Warnings "-register-all".
Open Scope string_scope.
Open Scope list_scope.

(** ** JavaScript values *)

Inductive JsVal : Type :=
| JUndefined
| JNull
| JBool (b : bool)
| JNum (n : Z)
| JStr (s : string)
| JObj (props : list (string * JsVal)).

(** An error object: its [name] and its [message]. *)
Record JsError : Type := mkError { err_name : string; err_message : string }.

Definition TypeError (msg : string) : JsError := mkError "TypeError" msg.
Definition RangeError (msg : string) : JsError := mkError "RangeError" msg.
Definition Error (msg : string) : JsError := mkError "Error" msg.

(** [if (v)]: undefined, null, false, 0 and the empty string are falsy,
    every object is truthy. *)
Definition truthy (v : JsVal) : bool :=
  match v with
  | JUndefined | JNull => false
  | JBool b => b
  | JNum n => negb (n =? 0)%Z
  | JStr s => negb (String.eqb s "")
  | JObj _ => true
  end.

(** Own-property lookup in an object literal. *)
Fixpoint obj_lookup (k : string) (props : list (string * JsVal)) : option JsVal :=
  match props with
  | [] => None
  | (k', v) :: rest => if String.eqb k k' then Some v else obj_lookup k rest
  end.

(** [obj[k] = v]: overwrite in place, or append a new property. *)
Fixpoint obj_set (k : string) (v : JsVal) (props : list (string * JsVal))
  : list (string * JsVal) :=
  match props with
  | [] => [(k, v)]
  | (k', v') :: rest =>
      if String.eqb k k' then (k, v) :: rest else (k', v') :: obj_set k v rest
  end.

(** The outcome of a platform call or of an awaited promise. *)
Inductive Result (A : Type) : Type :=
| Ok (a : A)
| Err (e : JsError).
Arguments Ok {A} a.
Arguments Err {A} e.

(** [v.k]: a TypeError on undefined and null, undefined on a primitive or
    on a missing property. *)
Definition get_prop (k : string) (v : JsVal) : Result JsVal :=
  match v with
  | JUndefined => Err (TypeError "Cannot read properties of undefined")
  | JNull => Err (TypeError "Cannot read properties of null")
  | JObj props => Ok (default JUndefined (obj_lookup k props))
  | _ => Ok JUndefined
  end.

(** [JSON.stringify(v)] for an object [v]: the wire text is represented by
    the JSON document it denotes.  Properties whose value is undefined are
    dropped, the rest is kept in property order. *)
Fixpoint JSON_stringify (v : JsVal) : JsVal :=
  match v with
  | JObj props =>
      JObj ((fix go (ps : list (string * JsVal)) : list (string * JsVal) :=
               match ps with
               | [] => []
               | (k, JUndefined) :: rest => go rest
               | (k, x) :: rest => (k, JSON_stringify x) :: go rest
               end) props)
  | _ => v
  end.

(** [JSON.parse(text)]: the value of the document the text denotes. *)
Definition JSON_parse (doc : JsVal) : JsVal := doc.

(** ** Browser objects *)

(** A [MediaStreamTrack]: the fields the manager reads or writes. *)
Record MediaStreamTrack : Type := mkTrack {
  kind : string;            (* "audio" or "video" *)
  enabled : bool;
  stopped : bool            (* readyState === "ended" after stop() *)
}.

(** Tracks are shared objects (the stream, the peer connection's senders
    and the page's video element all point at them): a heap by object id. *)
Abbreviation TrackHeap := (gmap nat MediaStreamTrack).

(** A [MediaStream]: the ids of its tracks, in insertion order. *)
Definition MediaStream : Type := list nat.

Record PeerConnection : Type := mkPc {
  pc_config : list string;               (* urls of the configured ICE servers *)
  pc_senders : list nat;                 (* tracks added with addTrack *)
  pc_signalingState : string;
  pc_connectionState : string;
  pc_localDescription : JsVal;
  pc_remoteDescription : JsVal;
  pc_remoteCandidates : list JsVal
}.

Inductive ReadyState : Type := CONNECTING | OPEN | CLOSING | CLOSED.

Global Instance ReadyState_eq_dec : EqDecision ReadyState.
Proof. solve_decision. Defined.

Record WebSocket : Type := mkSocket {
  ws_url : string;
  readyState : ReadyState
}.

(** What the browser decides.  Every oracle may reject. *)
Record Platform : Type := mkPlatform {
  location_protocol : string;
  location_host : string;
  (* navigator.mediaDevices.getUserMedia(constraints): the new tracks *)
  mediaGetUserMedia : JsVal -> Result (list MediaStreamTrack);
  (* navigator.mediaDevices.getDisplayMedia(constraints): the new tracks *)
  mediaGetDisplayMedia : JsVal -> Result (list MediaStreamTrack);
  newRTCSessionDescription : JsVal -> Result JsVal;
  newRTCIceCandidate : JsVal -> Result JsVal;
  pcCreateOffer : PeerConnection -> Result JsVal;
  pcCreateAnswer : PeerConnection -> Result JsVal;
  pcSetLocalDescription : PeerConnection -> JsVal -> Result PeerConnection;
  pcSetRemoteDescription : PeerConnection -> JsVal -> Result PeerConnection;
  pcAddIceCandidate : PeerConnection -> JsVal -> Result PeerConnection;
  (* getSenders()[i].replaceTrack(track), track being a track or undefined *)
  pcReplaceTrack : PeerConnection -> nat -> option nat -> Result PeerConnection
}.

(** ** Observable effects *)

Inductive Event : Type :=
| EvSend (doc : JsVal)                 (* signalingSocket.send(JSON.stringify(doc)) *)
| EvPcClose                            (* peerConnection.close() *)
| EvTrackStop (id : nat)               (* track.stop() *)
| EvSocketClose                        (* signalingSocket.close() *)
| EvStateChange (state : string)       (* onCallStateChange(state) *)
| EvLocalStream (stream : MediaStream) (* onLocalStream(stream) *)
| EvRemoteStream (stream : MediaStream)(* onRemoteStream(stream) *)
| EvAddIceCandidate (c : JsVal)        (* peerConnection.addIceCandidate(c) *)
| EvSetRemoteDescription (d : JsVal)   (* peerConnection.setRemoteDescription(d) *)
| EvSetLocalDescription (d : JsVal)    (* peerConnection.setLocalDescription(d) *)
| EvConsoleError (label : string) (e : JsError)
| EvShowError (title message : string). (* VideoCallUI.showError *)

(** ** The objects of the page *)

Record WebRTCCallManager : Type := mkManager {
  peerConnection : option PeerConnection;
  localStream : option MediaStream;
  remoteStream : option MediaStream;
  signalingSocket : option WebSocket;
  callSessionId : option string;
  isInitiator : bool;
  callType : string;
  onCallStateChange : bool;             (* is a subscriber installed? *)
  onRemoteStream : bool;
  onLocalStream : bool
}.

(** [new WebRTCCallManager()] (webrtc.js, lines 3-24) *)
Definition constructor : WebRTCCallManager :=
  {| peerConnection := None; localStream := None; remoteStream := None;
     signalingSocket := None; callSessionId := None; isInitiator := false;
     callType := "voice"; onCallStateChange := false;
     onRemoteStream := false; onLocalStream := false |}.

Definition iceServers : list string :=
  ["stun:stun.l.google.com:19302"; "stun:stun1.l.google.com:19302"].

(** The part of [VideoCallUI] that the call state reaches: its fields, and
    the elements of the call container it writes to. *)
Record VideoCallUI : Type := mkUI {
  callManager : bool;                   (* holds the page's call manager? *)
  currentCallSessionId : option string;
  callTimer : bool;                     (* is the duration interval running? *)
  isMinimized : bool;
  callContainerShown : bool;            (* callContainer.style.display *)
  permissionsModalShown : bool;
  callStatusText : string;              (* #call-status textContent *)
  callTimerShown : bool;                (* #call-timer display *)
  noRemoteVideoShown : bool             (* #no-remote-video display *)
}.

Record Page : Type := mkPage {
  mgr : WebRTCCallManager;
  ui : VideoCallUI;
  tracks : TrackHeap;
  trace : list Event
}.

(** ** Programs: state and exceptions *)

Inductive Completion (A : Type) : Type :=
| Normal (a : A)
| Throw (e : JsError).
Arguments Normal {A} a.
Arguments Throw {A} e.

Definition M (A : Type) : Type := Page -> Completion A * Page.

Definition ret {A} (a : A) : M A := fun p => (Normal a, p).

Definition bind {A B} (m : M A) (k : A -> M B) : M B :=
  fun p => match m p with
           | (Normal a, p') => k a p'
           | (Throw e, p') => (Throw e, p')
           end.

Definition throw {A} (e : JsError) : M A := fun p => (Throw e, p).

(** [try { body } catch (error) { handler }]: what [body] did before it
    threw stays done. *)
Definition try_catch {A} (body : M A) (handler : JsError -> M A) : M A :=
  fun p => match body p with
           | (Normal a, p') => (Normal a, p')
           | (Throw e, p') => handler e p'
           end.

Declare Scope js_scope.
Delimit Scope js_scope with js.
Notation "x <- m ;; k" := (bind m (fun x => k))
  (at level 100, m at next level, right associativity) : js_scope.
Notation "m ;; k" := (bind m (fun _ => k))
  (at level 100, right associativity) : js_scope.
Open Scope js_scope.

(** [await] of a promise the platform settled. *)
Definition await {A} (r : Result A) : M A :=
  match r with Ok a => ret a | Err e => throw e end.

Definition this : M WebRTCCallManager := fun p => (Normal (mgr p), p).

Definition emit (e : Event) : M unit :=
  fun p => (Normal tt, {| mgr := mgr p; ui := ui p; tracks := tracks p;
                          trace := trace p ++ [e] |}).

Definition update_mgr (f : WebRTCCallManager -> WebRTCCallManager) : M unit :=
  fun p => (Normal tt, {| mgr := f (mgr p); ui := ui p; tracks := tracks p;
                          trace := trace p |}).

Definition update_ui (f : VideoCallUI -> VideoCallUI) : M unit :=
  fun p => (Normal tt, {| mgr := mgr p; ui := f (ui p); tracks := tracks p;
                          trace := trace p |}).

Definition update_tracks (f : TrackHeap -> TrackHeap) : M unit :=
  fun p => (Normal tt, {| mgr := mgr p; ui := ui p; tracks := f (tracks p);
                          trace := trace p |}).

(** The whole page, for reading the heap of tracks. *)
Definition page : M Page := fun p => (Normal p, p).

Definition console_error (label : string) (e : JsError) : M unit :=
  emit (EvConsoleError label e).

(** Field assignments [this.f = v]. *)
Definition set_peerConnection (v : option PeerConnection) (m : WebRTCCallManager) :=
  {| peerConnection := v; localStream := localStream m;
     remoteStream := remoteStream m; signalingSocket := signalingSocket m;
     callSessionId := callSessionId m; isInitiator := isInitiator m;
     callType := callType m; onCallStateChange := onCallStateChange m;
     onRemoteStream := onRemoteStream m; onLocalStream := onLocalStream m |}.

Definition set_localStream (v : option MediaStream) (m : WebRTCCallManager) :=
  {| peerConnection := peerConnection m; localStream := v;
     remoteStream := remoteStream m; signalingSocket := signalingSocket m;
     callSessionId := callSessionId m; isInitiator := isInitiator m;
     callType := callType m; onCallStateChange := onCallStateChange m;
     onRemoteStream := onRemoteStream m; onLocalStream := onLocalStream m |}.

Definition set_remoteStream (v : option MediaStream) (m : WebRTCCallManager) :=
  {| peerConnection := peerConnection m; localStream := localStream m;
     remoteStream := v; signalingSocket := signalingSocket m;
     callSessionId := callSessionId m; isInitiator := isInitiator m;
     callType := callType m; onCallStateChange := onCallStateChange m;
     onRemoteStream := onRemoteStream m; onLocalStream := onLocalStream m |}.

Definition set_signalingSocket (v : option WebSocket) (m : WebRTCCallManager) :=
  {| peerConnection := peerConnection m; localStream := localStream m;
     remoteStream := remoteStream m; signalingSocket := v;
     callSessionId := callSessionId m; isInitiator := isInitiator m;
     callType := callType m; onCallStateChange := onCallStateChange m;
     onRemoteStream := onRemoteStream m; onLocalStream := onLocalStream m |}.

Definition set_session (id : string) (ty : string) (init : bool)
    (m : WebRTCCallManager) :=
  {| peerConnection := peerConnection m; localStream := localStream m;
     remoteStream := remoteStream m; signalingSocket := signalingSocket m;
     callSessionId := Some id; isInitiator := init;
     callType := ty; onCallStateChange := onCallStateChange m;
     onRemoteStream := onRemoteStream m; onLocalStream := onLocalStream m |}.

(** The three handler fields, all assigned. *)
Definition set_handlers (m : WebRTCCallManager) :=
  {| peerConnection := peerConnection m; localStream := localStream m;
     remoteStream := remoteStream m; signalingSocket := signalingSocket m;
     callSessionId := callSessionId m; isInitiator := isInitiator m;
     callType := callType m; onCallStateChange := true;
     onRemoteStream := true; onLocalStream := true |}.

(** ** Media tracks *)

Definition stop_track (t : MediaStreamTrack) : MediaStreamTrack :=
  {| kind := kind t; enabled := enabled t; stopped := true |}.

Definition flip_enabled (t : MediaStreamTrack) : MediaStreamTrack :=
  {| kind := kind t; enabled := negb (enabled t); stopped := stopped t |}.

(** [stream.getAudioTracks()] / [stream.getVideoTracks()] *)
Definition tracks_of_kind (k : string) (h : TrackHeap) (stream : MediaStream)
  : list nat :=
  List.filter (fun id => match h !! id with
                         | Some t => String.eqb (kind t) k
                         | None => false
                         end) stream.

(** A new track object gets an id no live object has. *)
Definition alloc_track (t : MediaStreamTrack) (h : TrackHeap) : nat * TrackHeap :=
  let id := fresh (dom h) in (id, <[id := t]> h).

Fixpoint alloc_tracks (ts : list MediaStreamTrack) (h : TrackHeap)
  : MediaStream * TrackHeap :=
  match ts with
  | [] => ([], h)
  | t :: rest =>
      let '(id, h1) := alloc_track t h in
      let '(ids, h2) := alloc_tracks rest h1 in
      (id :: ids, h2)
  end.

(** The stream [getUserMedia] resolves to: its tracks are new objects. *)
Definition new_stream (ts : list MediaStreamTrack) : M MediaStream :=
  fun p => let '(ids, h) := alloc_tracks ts (tracks p) in
           (Normal ids, {| mgr := mgr p; ui := ui p; tracks := h;
                           trace := trace p |}).

(** [if (o)] for a field that holds an object or null. *)
Definition non_null {A} (o : option A) : bool :=
  match o with Some _ => true | None => false end.

(** [findIndex]: the position of the first element that satisfies [f]. *)
Fixpoint find_index {A} (f : A -> bool) (l : list A) : option nat :=
  match l with
  | [] => None
  | x :: rest => if f x then Some 0 else S <$> find_index f rest
  end.

(** [forEach] over a list of tracks. *)
Fixpoint forEach {A} (l : list A) (f : A -> M unit) : M unit :=
  match l with
  | [] => ret tt
  | x :: rest => f x ;; forEach rest f
  end.

(** ** [WebRTCCallManager]: the methods of [static/js/webrtc.js] *)

Section Manager.

(** The browser, and what the function stored in [onCallStateChange]
    does when it is called. *)
Variable platform : Platform.
Variable subscriber : string -> M unit.

(** A method call on [this.peerConnection]: a TypeError when the field
    is null, else the platform's answer. *)
Definition on_pc {A} (f : PeerConnection -> Result A) : M A :=
  m <- this ;;
  match peerConnection m with
  | None => throw (TypeError "Cannot read properties of null")
  | Some pc => await (f pc)
  end.

(** The same for a call that changes the connection; the call is recorded. *)
Definition pc_call (ev : Event) (f : PeerConnection -> Result PeerConnection)
  : M unit :=
  m <- this ;;
  match peerConnection m with
  | None => throw (TypeError "Cannot read properties of null")
  | Some pc =>
      emit ev ;;
      pc' <- await (f pc) ;;
      update_mgr (set_peerConnection (Some pc'))
  end.

(** [updateCallState(state)]: the value handed over is recorded, then the subscriber runs
    (webrtc.js, lines 289-293). *)
Definition updateCallState (state : string) : M unit :=
  m <- this ;;
  if onCallStateChange m
  then emit (EvStateChange state) ;; subscriber state
  else ret tt.

(** [sendSignalingMessage(type, data)]: the object literal is [{ type: type, [type]: data }]
    (webrtc.js, lines 179-186). *)
Definition sendSignalingMessage (type : string) (data : JsVal) : M unit :=
  m <- this ;;
  match signalingSocket m with
  | Some sock =>
      if decide (readyState sock = OPEN)
      then emit (EvSend (JSON_stringify
                           (JObj (obj_set type data (obj_set "type" (JStr type) [])))))
      else ret tt
  | None => ret tt
  end.

(** [getUserMedia()]
    (webrtc.js, lines 53-71). *)
Definition getUserMedia : M unit :=
  m <- this ;;
  let constraints :=
    JObj [("audio", JBool true);
          ("video", if String.eqb (callType m) "video"
                    then JObj [("width", JObj [("ideal", JNum 1280)]);
                               ("height", JObj [("ideal", JNum 720)])]
                    else JBool false)] in
  try_catch
    (ts <- await (mediaGetUserMedia platform constraints) ;;
     stream <- new_stream ts ;;
     update_mgr (set_localStream (Some stream)) ;;
     m <- this ;;
     if onLocalStream m then emit (EvLocalStream stream) else ret tt)
    (fun error =>
       console_error "Error accessing media devices:" error ;;
       throw (Error "Could not access camera/microphone. Please check permissions.")).

(** [peerConnection.addTrack(track, stream)] *)
Definition addTrack (id : nat) (pc : PeerConnection) : PeerConnection :=
  {| pc_config := pc_config pc; pc_senders := (pc_senders pc ++ [id])%list;
     pc_signalingState := pc_signalingState pc;
     pc_connectionState := pc_connectionState pc;
     pc_localDescription := pc_localDescription pc;
     pc_remoteDescription := pc_remoteDescription pc;
     pc_remoteCandidates := pc_remoteCandidates pc |}.

(** [new RTCPeerConnection(config)] *)
Definition newRTCPeerConnection (config : list string) : PeerConnection :=
  {| pc_config := config; pc_senders := [];
     pc_signalingState := "stable"; pc_connectionState := "new";
     pc_localDescription := JNull; pc_remoteDescription := JNull;
     pc_remoteCandidates := [] |}.

(** The handlers it registers are [ontrack], [onicecandidate] and
    [onconnectionstatechange] below.
    (webrtc.js, lines 73-123) *)
Definition createPeerConnection : M unit :=
  update_mgr (set_peerConnection (Some (newRTCPeerConnection iceServers))) ;;
  m <- this ;;
  match localStream m with
  | None => throw (TypeError "Cannot read properties of null")
  | Some stream =>
      forEach stream (fun track =>
        update_mgr (fun m => set_peerConnection
                               (addTrack track <$> peerConnection m) m))
  end.

(** [peerConnection.ontrack(event)], [event.track] being a track object.
    (webrtc.js, lines 82-91) *)
Definition ontrack (track : nat) : M unit :=
  m <- this ;;
  (if non_null (remoteStream m) then ret tt
   else update_mgr (set_remoteStream (Some []))) ;;
  update_mgr (fun m => set_remoteStream
                         ((fun s => if bool_decide (track ∈ s) then s
                                    else (s ++ [track])%list)
                            <$> remoteStream m) m) ;;
  m <- this ;;
  if onRemoteStream m
  then emit (EvRemoteStream (default [] (remoteStream m)))
  else ret tt.

(** [peerConnection.onicecandidate(event)], [candidate] being
    [event.candidate].
    (webrtc.js, lines 94-100) *)
Definition onicecandidate (candidate : JsVal) : M unit :=
  if truthy candidate
  then sendSignalingMessage "ice_candidate" (JObj [("candidate", candidate)])
  else ret tt.

(** [peerConnection.onconnectionstatechange()]: the handler reads
    [this.peerConnection.connectionState].
    (webrtc.js, lines 103-117) *)
Definition onconnectionstatechange : M unit :=
  st <- on_pc (fun pc => Ok (pc_connectionState pc)) ;;
  if String.eqb st "connected" then updateCallState "connected"
  else if String.eqb st "disconnected" then updateCallState "disconnected"
  else if String.eqb st "failed" then updateCallState "disconnected"
  else if String.eqb st "closed" then updateCallState "ended"
  else ret tt.

(** [new WebSocket(wsUrl)]: the socket starts in CONNECTING.
    (webrtc.js, lines 125-147) *)
Definition setupSignaling : M unit :=
  m <- this ;;
  let protocol :=
    if String.eqb (location_protocol platform) "https:" then "wss:" else "ws:" in
  let wsUrl := (protocol ++ "//" ++ location_host platform ++ "/ws/call/"
                ++ default "null" (callSessionId m) ++ "/")%string in
  update_mgr (set_signalingSocket (Some {| ws_url := wsUrl; readyState := CONNECTING |})).

(** [createOffer()]
    (webrtc.js, lines 149-162). *)
Definition createOffer : M unit :=
  try_catch
    (offer <- on_pc (pcCreateOffer platform) ;;
     pc_call (EvSetLocalDescription offer)
             (fun pc => pcSetLocalDescription platform pc offer) ;;
     sdp <- await (get_prop "sdp" offer) ;;
     type <- await (get_prop "type" offer) ;;
     sendSignalingMessage "offer" (JObj [("sdp", sdp); ("type", type)]))
    (fun error => console_error "Error creating offer:" error ;; throw error).

(** [createAnswer()]
    (webrtc.js, lines 164-177). *)
Definition createAnswer : M unit :=
  try_catch
    (answer <- on_pc (pcCreateAnswer platform) ;;
     pc_call (EvSetLocalDescription answer)
             (fun pc => pcSetLocalDescription platform pc answer) ;;
     sdp <- await (get_prop "sdp" answer) ;;
     type <- await (get_prop "type" answer) ;;
     sendSignalingMessage "answer" (JObj [("sdp", sdp); ("type", type)]))
    (fun error => console_error "Error creating answer:" error ;; throw error).

(** [handleOffer(offer)]
    (webrtc.js, lines 209-217). *)
Definition handleOffer (offer : JsVal) : M unit :=
  try_catch
    (remoteOffer <- await (newRTCSessionDescription platform offer) ;;
     pc_call (EvSetRemoteDescription remoteOffer)
             (fun pc => pcSetRemoteDescription platform pc remoteOffer) ;;
     createAnswer)
    (fun error => console_error "Error handling offer:" error).

(** [handleAnswer(answer)]
    (webrtc.js, lines 219-226). *)
Definition handleAnswer (answer : JsVal) : M unit :=
  try_catch
    (remoteAnswer <- await (newRTCSessionDescription platform answer) ;;
     pc_call (EvSetRemoteDescription remoteAnswer)
             (fun pc => pcSetRemoteDescription platform pc remoteAnswer))
    (fun error => console_error "Error handling answer:" error).

(** [handleIceCandidate(candidate)]
    (webrtc.js, lines 228-236). *)
Definition handleIceCandidate (candidate : JsVal) : M unit :=
  try_catch
    (if truthy candidate
     then
       m <- this ;;
       match peerConnection m with
       | None => throw (TypeError "Cannot read properties of null")
       | Some pc =>
           c <- await (newRTCIceCandidate platform candidate) ;;
           emit (EvAddIceCandidate c) ;;
           pc' <- await (pcAddIceCandidate platform pc c) ;;
           update_mgr (set_peerConnection (Some pc'))
       end
     else ret tt)
    (fun error => console_error "Error handling ICE candidate:" error).

(** [toggleAudio] and [toggleVideo], which differ in the kind of track only
    (webrtc.js, lines 242-262). *)
Definition toggle (k : string) : M bool :=
  m <- this ;;
  match localStream m with
  | Some stream =>
      p <- page ;;
      match tracks_of_kind k (tracks p) stream with
      | track :: _ =>
          update_tracks (alter flip_enabled track) ;;
          p <- page ;;
          ret (default false (enabled <$> tracks p !! track))
      | [] => ret false
      end
  | None => ret false
  end.

Definition toggleAudio : M bool := toggle "audio".
Definition toggleVideo : M bool := toggle "video".

(** [endCall()]
    (webrtc.js, lines 264-287). *)
Definition endCall : M unit :=
  (* Send hangup signal *)
  sendSignalingMessage "hangup" (JObj []) ;;
  (* Close peer connection *)
  m <- this ;;
  (if non_null (peerConnection m)
   then emit EvPcClose ;; update_mgr (set_peerConnection None)
   else ret tt) ;;
  (* Stop local media tracks *)
  m <- this ;;
  match localStream m with
  | Some stream =>
      forEach stream (fun track =>
        emit (EvTrackStop track) ;; update_tracks (alter stop_track track)) ;;
      update_mgr (set_localStream None)
  | None => ret tt
  end ;;
  (* Close signaling socket *)
  m <- this ;;
  (if non_null (signalingSocket m)
   then emit EvSocketClose ;; update_mgr (set_signalingSocket None)
   else ret tt) ;;
  updateCallState "ended".

(** [handleHangup()]
    (webrtc.js, lines 238-240). *)
Definition handleHangup : M unit := endCall.

(** [handleSignalingMessage(data)]: the [switch] compares [data.type] with [===]
    (webrtc.js, lines 188-207). *)
Definition handleSignalingMessage (data : JsVal) : M unit :=
  try_catch
    (type <- await (get_prop "type" data) ;;
     match type with
     | JStr t =>
         if String.eqb t "offer"
         then offer <- await (get_prop "offer" data) ;; handleOffer offer
         else if String.eqb t "answer"
         then answer <- await (get_prop "answer" data) ;; handleAnswer answer
         else if String.eqb t "ice_candidate"
         then candidate <- await (get_prop "candidate" data) ;;
              handleIceCandidate candidate
         else if String.eqb t "hangup"
         then handleHangup
         else ret tt
     | _ => ret tt
     end)
    (fun error => console_error "Error handling signaling message:" error).

(** [signalingSocket.onmessage(event)], [text] being [event.data].
    (webrtc.js, lines 135-138) *)
Definition onmessage (text : JsVal) : M unit :=
  handleSignalingMessage (JSON_parse text).

(** [initializeCall(callSessionId, callType, isInitiator)]
    (webrtc.js, lines 26-51). *)
Definition initializeCall (callSessionId callType : string) (isInitiator : bool)
  : M unit :=
  update_mgr (set_session callSessionId callType isInitiator) ;;
  try_catch
    (getUserMedia ;;
     createPeerConnection ;;
     setupSignaling ;;
     (if isInitiator then createOffer else ret tt) ;;
     updateCallState "connecting")
    (fun error =>
       console_error "Failed to initialize call:" error ;;
       updateCallState "failed" ;;
       throw error).

(** [this.peerConnection.getSenders().find(s => s.track.kind === 'video')]:
    the position of the first sender whose track is a video track. *)
Definition find_video_sender (h : TrackHeap) (pc : PeerConnection) : option nat :=
  find_index (fun id => match h !! id with
                        | Some t => String.eqb (kind t) "video"
                        | None => false
                        end) (pc_senders pc).

(** The three statements [startScreenShare] and [stopScreenShare] share:
    find the video sender and, if there is one, replace its track. *)
Definition replace_video_track (videoTrack : option nat) : M unit :=
  p <- page ;;
  sender <- on_pc (fun pc => Ok (find_video_sender (tracks p) pc)) ;;
  match sender with
  | Some i =>
      pc' <- on_pc (fun pc => pcReplaceTrack platform pc i videoTrack) ;;
      update_mgr (set_peerConnection (Some pc'))
  | None => ret tt
  end.

(** [startScreenShare()]; the [onended] handler it installs on the screen
    track calls [stopScreenShare]
    (webrtc.js, lines 296-320). *)
Definition startScreenShare : M bool :=
  try_catch
    (ts <- await (mediaGetDisplayMedia platform
                    (JObj [("video", JBool true); ("audio", JBool false)])) ;;
     screenStream <- new_stream ts ;;
     p <- page ;;
     let videoTrack := head (tracks_of_kind "video" (tracks p) screenStream) in
     replace_video_track videoTrack ;;
     match videoTrack with
     | Some _ => ret true
     | None => throw (TypeError "Cannot set properties of undefined")
     end)
    (fun error => console_error "Error starting screen share:" error ;; ret false).

(** [stopScreenShare()]
    (webrtc.js, lines 322-334). *)
Definition stopScreenShare : M unit :=
  try_catch
    (ts <- await (mediaGetUserMedia platform (JObj [("video", JBool true)])) ;;
     cameraStream <- new_stream ts ;;
     p <- page ;;
     let videoTrack := head (tracks_of_kind "video" (tracks p) cameraStream) in
     replace_video_track videoTrack)
    (fun error => console_error "Error stopping screen share:" error).

End Manager.

(** A subscriber that only observes. *)
Definition passive : string -> M unit := fun _ => ret tt.

(** ** [VideoCallUI]: the call-state wiring of [staticfiles/js/drag-drop.js] *)

Module UI.

Definition set_callManager (v : bool) (u : VideoCallUI) : VideoCallUI :=
  {| callManager := v; currentCallSessionId := currentCallSessionId u;
     callTimer := callTimer u; isMinimized := isMinimized u;
     callContainerShown := callContainerShown u;
     permissionsModalShown := permissionsModalShown u;
     callStatusText := callStatusText u; callTimerShown := callTimerShown u;
     noRemoteVideoShown := noRemoteVideoShown u |}.

Definition set_currentCallSessionId (v : option string) (u : VideoCallUI) :=
  {| callManager := callManager u; currentCallSessionId := v;
     callTimer := callTimer u; isMinimized := isMinimized u;
     callContainerShown := callContainerShown u;
     permissionsModalShown := permissionsModalShown u;
     callStatusText := callStatusText u; callTimerShown := callTimerShown u;
     noRemoteVideoShown := noRemoteVideoShown u |}.

Definition set_callTimer (v : bool) (u : VideoCallUI) : VideoCallUI :=
  {| callManager := callManager u; currentCallSessionId := currentCallSessionId u;
     callTimer := v; isMinimized := isMinimized u;
     callContainerShown := callContainerShown u;
     permissionsModalShown := permissionsModalShown u;
     callStatusText := callStatusText u; callTimerShown := callTimerShown u;
     noRemoteVideoShown := noRemoteVideoShown u |}.

Definition set_container (shown minimized : bool) (u : VideoCallUI) : VideoCallUI :=
  {| callManager := callManager u; currentCallSessionId := currentCallSessionId u;
     callTimer := callTimer u; isMinimized := minimized;
     callContainerShown := shown;
     permissionsModalShown := permissionsModalShown u;
     callStatusText := callStatusText u; callTimerShown := callTimerShown u;
     noRemoteVideoShown := noRemoteVideoShown u |}.

Definition set_permissionsModal (shown : bool) (u : VideoCallUI) : VideoCallUI :=
  {| callManager := callManager u; currentCallSessionId := currentCallSessionId u;
     callTimer := callTimer u; isMinimized := isMinimized u;
     callContainerShown := callContainerShown u;
     permissionsModalShown := shown;
     callStatusText := callStatusText u; callTimerShown := callTimerShown u;
     noRemoteVideoShown := noRemoteVideoShown u |}.

Definition set_elements (status : string) (timer noRemote : bool)
    (u : VideoCallUI) : VideoCallUI :=
  {| callManager := callManager u; currentCallSessionId := currentCallSessionId u;
     callTimer := callTimer u; isMinimized := isMinimized u;
     callContainerShown := callContainerShown u;
     permissionsModalShown := permissionsModalShown u;
     callStatusText := status; callTimerShown := timer;
     noRemoteVideoShown := noRemote |}.

Definition self : M VideoCallUI := fun p => (Normal (ui p), p).

(** [stopTimer()] (drag-drop.js, lines 758-763). *)
Definition stopTimer : M unit :=
  u <- self ;;
  if callTimer u then update_ui (set_callTimer false) else ret tt.

(** [startTimer()]: a new interval (drag-drop.js, lines 743-756). *)
Definition startTimer : M unit := update_ui (set_callTimer true).

(** [showCallInterface()] (drag-drop.js, lines 644-647). *)
Definition showCallInterface : M unit :=
  update_ui (set_container true false).

(** [hideCallInterface()] (drag-drop.js, lines 649-652). *)
Definition hideCallInterface : M unit :=
  update_ui (fun u => set_container false (isMinimized u) u) ;;
  stopTimer.

(** [showPermissionsModal()] (drag-drop.js, lines 654-656). *)
Definition showPermissionsModal : M unit :=
  update_ui (set_permissionsModal true).

(** [showError(title, message)] (drag-drop.js, lines 765-788). *)
Definition showError (title message : string) : M unit :=
  emit (EvShowError title message).

Section Wiring.

(** [this.callManager.endCall()] and [this.callManager.initializeCall(..)],
    the manager's handlers being this object's. *)
Variable manager_endCall : M unit.
Variable manager_initializeCall : string -> string -> bool -> M unit.

(** [endCall()] (drag-drop.js, lines 536-544). *)
Definition endCall : M unit :=
  u <- self ;;
  (if callManager u
   then manager_endCall ;; update_ui (set_callManager false)
   else ret tt) ;;
  hideCallInterface ;;
  update_ui (set_currentCallSessionId None) ;;
  stopTimer.

(** [onCallStateChange(state)] (drag-drop.js, lines 695-724). *)
Definition onCallStateChange (state : string) : M unit :=
  if String.eqb state "connecting" then
    update_ui (fun u => set_elements "Connecting..." (callTimerShown u) true u)
  else if String.eqb state "ringing" then
    update_ui (fun u => set_elements "Ringing..." (callTimerShown u)
                                     (noRemoteVideoShown u) u)
  else if String.eqb state "connected" then
    update_ui (set_elements "Connected" true false) ;;
    startTimer ;;
    showCallInterface
  else if String.eqb state "ended" then
    update_ui (fun u => set_elements "Call ended" (callTimerShown u)
                                     (noRemoteVideoShown u) u) ;;
    endCall
  else if String.eqb state "failed" then
    update_ui (fun u => set_elements "Call failed" (callTimerShown u)
                                     (noRemoteVideoShown u) u) ;;
    showError "Call Failed" "Unable to establish connection"
  else ret tt.

(** [hasPermissions] is what [checkPermissions()] resolved to.  The three
    handlers of the manager are set to this object's.
    (drag-drop.js, lines 469-494) *)
Definition startCall (hasPermissions : bool)
    (sessionId callType : string) (isInitiator : bool) : M unit :=
  try_catch
    (if negb hasPermissions then showPermissionsModal
     else
       update_ui (set_callManager true) ;;
       update_mgr set_handlers ;;
       manager_initializeCall sessionId callType isInitiator ;;
       update_ui (set_currentCallSessionId (Some sessionId)))
    (fun error =>
       console_error "Failed to start call:" error ;;
       showError "Failed to start call" (err_message error)).

End Wiring.

End UI.

(** The function [startCall] stores in [callManager.onCallStateChange] is
    [(state) => this.onCallStateChange(state)], and its ['ended'] case calls
    back into the manager.  [depth] is the number of nested handler calls
    the JavaScript stack still has room for; a call beyond it raises a
    RangeError. *)
Fixpoint ui_subscriber (depth : nat) (state : string) : M unit :=
  match depth with
  | 0 => throw (RangeError "Maximum call stack size exceeded")
  | S d => UI.onCallStateChange (endCall (ui_subscriber d)) state
  end.

(** The hang-up button: [videoCallUI.endCall()]. *)
Definition ui_endCall (depth : nat) : M unit :=
  UI.endCall (endCall (ui_subscriber depth)).

(** [videoCallUI.startCall(sessionId, callType, isInitiator)] *)
Definition ui_startCall (platform : Platform) (depth : nat) (hasPermissions : bool)
    (sessionId callType : string) (isInitiator : bool) : M unit :=
  UI.startCall (initializeCall platform (ui_subscriber depth))
               hasPermissions sessionId callType isInitiator.

(** ** A browser for the examples

    The signaling-state rules of an RTCPeerConnection (offer and answer
    only), a camera and microphone that are granted, and one that is
    denied.  The theorems below hold for every [Platform]; this one
    instantiates them. *)

Definition InvalidStateError (msg : string) : JsError :=
  mkError "InvalidStateError" msg.
Definition NotAllowedError (msg : string) : JsError :=
  mkError "NotAllowedError" msg.

Definition with_signaling (st : string) (loc rem : JsVal) (pc : PeerConnection)
  : PeerConnection :=
  {| pc_config := pc_config pc; pc_senders := pc_senders pc;
     pc_signalingState := st; pc_connectionState := pc_connectionState pc;
     pc_localDescription := loc; pc_remoteDescription := rem;
     pc_remoteCandidates := pc_remoteCandidates pc |}.

Definition with_connectionState (st : string) (pc : PeerConnection)
  : PeerConnection :=
  {| pc_config := pc_config pc; pc_senders := pc_senders pc;
     pc_signalingState := pc_signalingState pc; pc_connectionState := st;
     pc_localDescription := pc_localDescription pc;
     pc_remoteDescription := pc_remoteDescription pc;
     pc_remoteCandidates := pc_remoteCandidates pc |}.

Definition desc_type (d : JsVal) : string :=
  match get_prop "type" d with
  | Ok (JStr t) => t
  | _ => ""
  end.

Definition browser_setLocalDescription (pc : PeerConnection) (d : JsVal)
  : Result PeerConnection :=
  let st := pc_signalingState pc in
  if String.eqb (desc_type d) "offer" && (String.eqb st "stable" || String.eqb st "have-local-offer")
  then Ok (with_signaling "have-local-offer" d (pc_remoteDescription pc) pc)
  else if String.eqb (desc_type d) "answer" && String.eqb st "have-remote-offer"
  then Ok (with_signaling "stable" d (pc_remoteDescription pc) pc)
  else Err (InvalidStateError "Called in wrong state").

Definition browser_setRemoteDescription (pc : PeerConnection) (d : JsVal)
  : Result PeerConnection :=
  let st := pc_signalingState pc in
  if String.eqb (desc_type d) "offer" && (String.eqb st "stable" || String.eqb st "have-remote-offer")
  then Ok (with_signaling "have-remote-offer" (pc_localDescription pc) d pc)
  else if String.eqb (desc_type d) "answer" && String.eqb st "have-local-offer"
  then Ok (with_signaling "stable" (pc_localDescription pc) d pc)
  else Err (InvalidStateError "Called in wrong state").

Definition browser_addIceCandidate (pc : PeerConnection) (c : JsVal)
  : Result PeerConnection :=
  match pc_remoteDescription pc with
  | JNull => Err (InvalidStateError "The remote description was null")
  | _ => Ok {| pc_config := pc_config pc; pc_senders := pc_senders pc;
               pc_signalingState := pc_signalingState pc;
               pc_connectionState := pc_connectionState pc;
               pc_localDescription := pc_localDescription pc;
               pc_remoteDescription := pc_remoteDescription pc;
               pc_remoteCandidates := (pc_remoteCandidates pc ++ [c])%list |}
  end.

Definition browser_replaceTrack (pc : PeerConnection) (i : nat) (track : option nat)
  : Result PeerConnection :=
  Ok {| pc_config := pc_config pc;
        pc_senders := match track with
                      | Some id => <[i := id]> (pc_senders pc)
                      | None => pc_senders pc
                      end;
        pc_signalingState := pc_signalingState pc;
        pc_connectionState := pc_connectionState pc;
        pc_localDescription := pc_localDescription pc;
        pc_remoteDescription := pc_remoteDescription pc;
        pc_remoteCandidates := pc_remoteCandidates pc |}.

Definition browser_with (media : JsVal -> Result (list MediaStreamTrack))
  : Platform :=
  {| location_protocol := "https:";
     location_host := "safetalk.example";
     mediaGetUserMedia := media;
     mediaGetDisplayMedia := fun _ => Ok [mkTrack "video" true false];
     pcReplaceTrack := browser_replaceTrack;
     newRTCSessionDescription := fun d =>
       match get_prop "type" d with
       | Ok (JStr _) => Ok d
       | _ => Err (TypeError "Failed to construct 'RTCSessionDescription'")
       end;
     newRTCIceCandidate := fun c =>
       match get_prop "sdpMid" c, get_prop "sdpMLineIndex" c with
       | Ok JUndefined, Ok JUndefined | Ok JNull, Ok JNull
       | Ok JUndefined, Ok JNull | Ok JNull, Ok JUndefined
       | Err _, _ | _, Err _ =>
           Err (TypeError "Failed to construct 'RTCIceCandidate'")
       | _, _ => Ok c
       end;
     pcCreateOffer := fun _ =>
       Ok (JObj [("type", JStr "offer"); ("sdp", JStr "v=0 offer")]);
     pcCreateAnswer := fun pc =>
       if String.eqb (pc_signalingState pc) "have-remote-offer"
       then Ok (JObj [("type", JStr "answer"); ("sdp", JStr "v=0 answer")])
       else Err (InvalidStateError "No remote offer to answer");
     pcSetLocalDescription := browser_setLocalDescription;
     pcSetRemoteDescription := browser_setRemoteDescription;
     pcAddIceCandidate := browser_addIceCandidate |}.

(** Access granted: a microphone track, and a camera track when the
    constraints ask for video. *)
Definition browser : Platform :=
  browser_with (fun constraints =>
    match get_prop "audio" constraints, get_prop "video" constraints with
    | Ok a, Ok v =>
        Ok ((if truthy a then [mkTrack "audio" true false] else [])
            ++ (if truthy v then [mkTrack "video" true false] else []))
    | Err e, _ | _, Err e => Err e
    end).

(** Access denied by the user. *)
Definition browser_denying : Platform :=
  browser_with (fun _ => Err (NotAllowedError "Permission denied")).

Definition ui0 : VideoCallUI :=
  {| callManager := false; currentCallSessionId := None; callTimer := false;
     isMinimized := false; callContainerShown := false;
     permissionsModalShown := false; callStatusText := "Initializing call";
     callTimerShown := false; noRemoteVideoShown := true |}.

(** A freshly loaded page. *)
Definition page0 : Page :=
  {| mgr := constructor; ui := ui0; tracks := ∅; trace := [] |}.

(** The page with an observing subscriber installed. *)
Definition page_subscribed : Page :=
  {| mgr := set_handlers constructor; ui := ui0; tracks := ∅; trace := [] |}.

(** The signaling socket's [open] event. *)
Definition socket_open_event : M unit :=
  update_mgr (fun m =>
    set_signalingSocket
      ((fun s => {| ws_url := ws_url s; readyState := OPEN |}) <$> signalingSocket m) m).

(** The browser reports a new connection state and fires
    [onconnectionstatechange]. *)
Definition connection_state_event (subscriber : string -> M unit) (st : string)
  : M unit :=
  update_mgr (fun m =>
    set_peerConnection (with_connectionState st <$> peerConnection m) m) ;;
  onconnectionstatechange subscriber.

(** A call in progress: started as a video call by the initiator, the
    signaling socket open. *)
Definition page_in_call : Page :=
  snd ((initializeCall browser passive "sess-1" "video" true ;;
        socket_open_event) page_subscribed).

(** * Vocabulary of the statements *)

(** ** What a hang-up does, step by step *)

Definition hangup_wire : JsVal := JObj [("type", JStr "hangup"); ("hangup", JObj [])].

Definition socket_is_open (m : WebRTCCallManager) : bool :=
  match signalingSocket m with
  | Some sock => bool_decide (readyState sock = OPEN)
  | None => false
  end.

(** [stop()] on every track of the stream. *)
Definition stop_all (stream : MediaStream) (h : TrackHeap) : TrackHeap :=
  foldl (fun h id => alter stop_track id h) h stream.

(** The manager with its three resources released. *)
Definition released (m : WebRTCCallManager) : WebRTCCallManager :=
  set_signalingSocket None (set_localStream None (set_peerConnection None m)).

(** The effects of the four teardown steps of [endCall], in order. *)
Definition teardown_events (m : WebRTCCallManager) : list Event :=
  (if socket_is_open m then [EvSend hangup_wire] else []) ++
  (if non_null (peerConnection m) then [EvPcClose] else []) ++
  map EvTrackStop (default [] (localStream m)) ++
  (if non_null (signalingSocket m) then [EvSocketClose] else []).

Definition teardown_page (p : Page) : Page :=
  {| mgr := released (mgr p); ui := ui p;
     tracks := stop_all (default [] (localStream (mgr p))) (tracks p);
     trace := trace p ++ teardown_events (mgr p) |}.

(** Counting in a trace. *)
Definition is_state_change (state : string) (e : Event) : bool :=
  match e with EvStateChange s => String.eqb s state | _ => false end.
Definition is_pc_close (e : Event) : bool :=
  match e with EvPcClose => true | _ => false end.
Definition is_track_stop (id : nat) (e : Event) : bool :=
  match e with EvTrackStop i => Nat.eqb i id | _ => false end.
Definition is_socket_close (e : Event) : bool :=
  match e with EvSocketClose => true | _ => false end.
Definition is_send (e : Event) : bool :=
  match e with EvSend _ => true | _ => false end.
Definition is_ice_or_console (e : Event) : bool :=
  match e with EvAddIceCandidate _ | EvConsoleError _ _ => true | _ => false end.
Definition count (f : Event -> bool) (tr : list Event) : nat :=
  length (List.filter f tr).

(** ** Pages and messages of the examples, and the inputs of a run *)

(** A call whose socket is still CONNECTING: the page right after
    [initializeCall], before the socket's [open] event. *)
Definition page_connecting : Page :=
  snd (initializeCall browser passive "sess-1" "video" true page_subscribed).

Definition with_tracks (h : TrackHeap) (p : Page) : Page :=
  {| mgr := mgr p; ui := ui p; tracks := h; trace := trace p |}.

(** The page with more events in its trace and nothing else changed. *)
Definition with_events (evs : list Event) (p : Page) : Page :=
  {| mgr := mgr p; ui := ui p; tracks := tracks p; trace := trace p ++ evs |}.

(** A candidate that reaches the initiator before the answer does: the
    browser rejects it, the call goes on. *)
Definition early_candidate : JsVal :=
  JObj [("candidate", JStr "candidate:1 1 udp 2122260223 192.0.2.1 54321 typ host");
        ("sdpMid", JStr "0"); ("sdpMLineIndex", JNum 0)].

(** What [onicecandidate] hands to [send] for a candidate:
    [{ type: 'ice_candidate', ice_candidate: { candidate } }]. *)
Definition ice_wire (candidate : JsVal) : JsVal :=
  JSON_stringify
    (JObj [("type", JStr "ice_candidate");
           ("ice_candidate", JObj [("candidate", candidate)])]).

Definition with_open_socket (url : string) (p : Page) : Page :=
  {| mgr := set_signalingSocket (Some {| ws_url := url; readyState := OPEN |}) (mgr p);
     ui := ui p; tracks := tracks p; trace := trace p |}.

(** The candidate of the examples, sent by one page and received by
    another that is ready for it (it has applied the remote offer). *)
Definition page_responder : Page :=
  snd ((initializeCall browser passive "sess-1" "video" false ;;
        socket_open_event ;;
        handleOffer browser (JObj [("sdp", JStr "v=0 offer"); ("type", JStr "offer")]))
         page_subscribed).

Definition remote_answer : JsVal :=
  JObj [("sdp", JStr "v=0 answer"); ("type", JStr "answer")].

(** A responder that has started its call and has not yet received the
    offer. *)
Definition page_awaiting_offer : Page :=
  snd ((initializeCall browser passive "sess-1" "video" false ;;
        socket_open_event) page_subscribed).

Definition media_error : JsError :=
  Error "Could not access camera/microphone. Please check permissions.".

(** The constraints [getUserMedia()] hands to the browser in a call of type
    [callType] (webrtc.js, lines 54-60). *)
Definition media_constraints (callType : string) : JsVal :=
  JObj [("audio", JBool true);
        ("video", if String.eqb callType "video"
                  then JObj [("width", JObj [("ideal", JNum 1280)]);
                             ("height", JObj [("ideal", JNum 720)])]
                  else JBool false)].

(** The user allows the microphone and denies the camera: a request that
    asks for video is rejected, one for audio alone is granted. *)
Definition browser_denying_camera : Platform :=
  browser_with (fun constraints =>
    match get_prop "video" constraints with
    | Ok v => if truthy v then Err (NotAllowedError "Permission denied")
              else Ok [mkTrack "audio" true false]
    | Err e => Err e
    end).

(** The CallState values of the specification (section 4.2); they are also
    the five cases of [VideoCallUI.onCallStateChange], plus [idle]. *)
Definition CallState : list string :=
  ["idle"; "connecting"; "ringing"; "connected"; "ended"; "failed"].

(** A page whose manager has a subscriber and the peer connection [pc]. *)
Definition with_connection (pc : PeerConnection) (p : Page) : Page :=
  {| mgr := set_handlers (set_peerConnection (Some pc) (mgr p));
     ui := ui p; tracks := tracks p; trace := trace p |}.

Inductive Input : Type :=
| InInitializeCall (callSessionId callType : string) (isInitiator : bool)
| InSocketOpen                            (* the socket's open event *)
| InMessage (text : JsVal)                (* signalingSocket.onmessage *)
| InIceCandidate (candidate : JsVal)      (* peerConnection.onicecandidate *)
| InTrack (track : nat)                   (* peerConnection.ontrack *)
| InConnectionState (state : string)      (* onconnectionstatechange *)
| InToggleAudio
| InToggleVideo
| InStartScreenShare
| InStopScreenShare
| InEndCall.

Definition handle (platform : Platform) (i : Input) : M unit :=
  match i with
  | InInitializeCall id ty init => initializeCall platform passive id ty init
  | InSocketOpen => socket_open_event
  | InMessage text => onmessage platform passive text
  | InIceCandidate c => onicecandidate c
  | InTrack track => ontrack track
  | InConnectionState st => connection_state_event passive st
  | InToggleAudio => toggleAudio ;; ret tt
  | InToggleVideo => toggleVideo ;; ret tt
  | InStartScreenShare => startScreenShare platform ;; ret tt
  | InStopScreenShare => stopScreenShare platform
  | InEndCall => endCall passive
  end.

(** The event loop: an error that escapes a handler ends that handler
    only. *)
Fixpoint run_inputs (platform : Platform) (inputs : list Input) (p : Page) : Page :=
  match inputs with
  | [] => p
  | i :: rest => run_inputs platform rest (snd (handle platform i p))
  end.

(** The state names the code can hand to the subscriber. *)
Definition delivered_states : list string :=
  ["connecting"; "connected"; "disconnected"; "ended"; "failed"].

Definition delivers_only (allowed : list string) (e : Event) : bool :=
  match e with
  | EvStateChange s => existsb (String.eqb s) allowed
  | _ => true
  end.

(** A program that only appends to the trace, and only events that [ok]
    accepts. *)
Definition appends (ok : Event -> bool) {A} (m : M A) : Prop :=
  forall p, exists evs, trace (snd (m p)) = trace p ++ evs /\ forallb ok evs = true.

(** ** Vocabulary of the further properties *)

(** The state names a trace hands to the subscriber, in order. *)
Fixpoint state_changes (tr : list Event) : list string :=
  match tr with
  | [] => []
  | EvStateChange s :: rest => s :: state_changes rest
  | _ :: rest => state_changes rest
  end.

(** Events that release a resource: closing the peer connection or the
    socket, stopping a track. *)
Definition is_release (e : Event) : bool :=
  match e with
  | EvPcClose | EvSocketClose | EvTrackStop _ => true
  | _ => false
  end.

(** [addTrack] for every track of a stream, in order. *)
Definition with_senders (stream : MediaStream) (pc : PeerConnection) : PeerConnection :=
  foldl (fun pc track => addTrack track pc) pc stream.

(** The setup steps of [initializeCall], before its last statement. *)
Definition setup_steps (platform : Platform) (isInitiator : bool) : M unit :=
  getUserMedia platform ;;
  createPeerConnection ;;
  setupSignaling platform ;;
  (if isInitiator then createOffer platform else ret tt).

(** The envelope [sendSignalingMessage(type, data)] serialises. *)
Definition envelope (type : string) (data : JsVal) : JsVal :=
  JSON_stringify (JObj (obj_set type data (obj_set "type" (JStr type) []))).

(** A program every run of which takes a page to one that [R] relates to
    it, whether it returns or throws. *)
Definition keeps (R : Page -> Page -> Prop) {A} (m : M A) : Prop :=
  forall p, R p (snd (m p)).

(** The subscriber field is untouched and no state change is notified. *)
Definition quiet (p p' : Page) : Prop :=
  onCallStateChange (mgr p') = onCallStateChange (mgr p) /\
  exists evs, trace p' = trace p ++ evs /\ state_changes evs = [].

(** The remote stream field is untouched. *)
Definition same_remote (p p' : Page) : Prop :=
  remoteStream (mgr p') = remoteStream (mgr p).

(** Every track object is still there, of the same kind, and stopped if
    it was. *)
Definition tracks_persist (p p' : Page) : Prop :=
  forall id t, tracks p !! id = Some t ->
    exists t', tracks p' !! id = Some t' /\ kind t' = kind t /\
               (stopped t = true -> stopped t' = true).


(** The inputs that are meant to end a call: a local hang-up and the
    peer's hangup message. *)
Definition is_hangup_input (i : Input) : bool :=
  match i with
  | InEndCall => true
  | InMessage text =>
      match get_prop "type" (JSON_parse text) with
      | Ok (JStr t) => String.eqb t "hangup"
      | _ => false
      end
  | _ => false
  end.

(** The local stream field and the track object [id] are as before. *)
Definition stream_and_track_kept (id : nat) (p p' : Page) : Prop :=
  localStream (mgr p') = localStream (mgr p) /\
  forall t, tracks p !! id = Some t -> tracks p' !! id = Some t.

(** ** The call timer (drag-drop.js, lines 743-756)

    The interval [startTimer()] sets writes the call's duration into
    [#call-timer] once a second.  [elapsed_ms] is
    [new Date() - this.callStartTime], a whole number of milliseconds. *)

(** [String.prototype.padStart(targetLength, padString)]: the pad string
    repeated and cut to the missing length; [s] itself when it is long
    enough or the pad string is empty.  (Lengths are counted in characters
    of the string type; the timer pads decimal digits.) *)
Fixpoint pad_fill (n : nat) (cur pad : string) : string :=
  match n with
  | O => ""
  | S n' =>
      match cur with
      | String c rest => String c (pad_fill n' rest pad)
      | EmptyString =>
          match pad with
          | String c rest => String c (pad_fill n' rest pad)
          | EmptyString => ""
          end
      end
  end.

Definition padStart (targetLength : nat) (padString s : string) : string :=
  if (targetLength <=? String.length s)%nat then s
  else pad_fill (targetLength - String.length s) padString padString +:+ s.

(** [Number.prototype.toString()] of an integer: its decimal digits, with a
    minus sign when negative. *)
Definition toString (n : Z) : string := pretty n.

(** [hours], [minutes] and [seconds] of the callback: [Math.floor] of a
    quotient is [Z.div], JavaScript's [%] is the truncating [Z.rem]. *)
Definition timer_parts (elapsed_ms : Z) : Z * Z * Z :=
  let elapsed := (elapsed_ms / 1000)%Z in
  let hours := (elapsed / 3600)%Z in
  let minutes := (Z.rem elapsed 3600 / 60)%Z in
  let seconds := Z.rem elapsed 60 in
  (hours, minutes, seconds).

(** [n.toString().padStart(2, '0')] *)
Definition two_digits (n : Z) : string := padStart 2 "0" (toString n).

(** [timerEl.textContent] after the callback ran. *)
Definition timer_text (elapsed_ms : Z) : string :=
  let '(hours, minutes, seconds) := timer_parts elapsed_ms in
  two_digits hours +:+ ":" +:+ two_digits minutes +:+ ":" +:+ two_digits seconds.

(** ** File uploads (drag-drop.js, lines 1-209)

    A drop zone with its file input, its optional [.file-preview] and
    [.upload-text] elements, and what the page shows beside it: the
    notifications, the screen-reader announcements and the file reads in
    flight. *)

Record File : Type := mkFile {
  file_name : string;
  file_size : N;                       (* bytes *)
  file_type : string                   (* MIME type *)
}.

(** What [getFileIcon] returns: one of the map's texts, or, for a name the
    map inherits from [Object.prototype] (['constructor'], ['toString'],
    ...), that member, which is not a text. *)
Inductive Icon : Type :=
  | IconText (text : string)
  | IconInherited (member : string).

(** The object [updatePreview] is handed. *)
Inductive FileData : Type :=
  | ImageData (src name size : string)
  | DocumentData (name size : string) (icon : Icon).

Record Zone : Type := mkZone {
  has_preview : bool;                  (* zone.querySelector('.file-preview') *)
  has_uploadText : bool;               (* zone.querySelector('.upload-text') *)
  preview : option FileData;           (* preview.innerHTML; None is '' *)
  preview_shown : bool;                (* preview.style.display *)
  uploadText_shown : bool;             (* uploadText.style.display *)
  input_files : list File;             (* input.files *)
  reading : list File;                 (* reader.readAsDataURL(file), not yet loaded *)
  notifications : list (string * string);  (* showNotification(message, type) *)
  announcements : list string          (* announceToScreenReader(message) *)
}.

(** The double quote of the messages. *)
Definition dquote : string := String (Ascii.ascii_of_nat 34) EmptyString.

(** [showNotification(message, type)] (drag-drop.js, lines 211-237): a new
    notification element on the page. *)
Definition showNotification (message type : string) (z : Zone) : Zone :=
  {| has_preview := has_preview z; has_uploadText := has_uploadText z;
     preview := preview z; preview_shown := preview_shown z;
     uploadText_shown := uploadText_shown z; input_files := input_files z;
     reading := reading z;
     notifications := notifications z ++ [(message, type)];
     announcements := announcements z |}.

(** [announceToScreenReader(message)] (drag-drop.js, lines 239-255) *)
Definition announceToScreenReader (message : string) (z : Zone) : Zone :=
  {| has_preview := has_preview z; has_uploadText := has_uploadText z;
     preview := preview z; preview_shown := preview_shown z;
     uploadText_shown := uploadText_shown z; input_files := input_files z;
     reading := reading z; notifications := notifications z;
     announcements := announcements z ++ [message] |}.

Definition set_preview (data : option FileData) (shown uploadText : bool)
    (z : Zone) : Zone :=
  {| has_preview := has_preview z; has_uploadText := has_uploadText z;
     preview := data; preview_shown := shown;
     uploadText_shown := uploadText; input_files := input_files z;
     reading := reading z; notifications := notifications z;
     announcements := announcements z |}.

Definition set_input_files (files : list File) (z : Zone) : Zone :=
  {| has_preview := has_preview z; has_uploadText := has_uploadText z;
     preview := preview z; preview_shown := preview_shown z;
     uploadText_shown := uploadText_shown z; input_files := files;
     reading := reading z; notifications := notifications z;
     announcements := announcements z |}.

Definition set_reading (files : list File) (z : Zone) : Zone :=
  {| has_preview := has_preview z; has_uploadText := has_uploadText z;
     preview := preview z; preview_shown := preview_shown z;
     uploadText_shown := uploadText_shown z; input_files := input_files z;
     reading := files; notifications := notifications z;
     announcements := announcements z |}.

(** The names every object literal inherits from [Object.prototype]. *)
Definition Object_prototype : list string :=
  ["constructor"; "__proto__"; "hasOwnProperty"; "isPrototypeOf";
   "propertyIsEnumerable"; "toLocaleString"; "toString"; "valueOf";
   "__defineGetter__"; "__defineSetter__"; "__lookupGetter__";
   "__lookupSetter__"].

Definition includes (xs : list string) (x : string) : bool :=
  existsb (String.eqb x) xs.

Definition iconMap : list (string * string) :=
  [("application/pdf", "📄");
   ("text/plain", "📝");
   ("application/msword", "📄");
   ("application/vnd.openxmlformats-officedocument.wordprocessingml.document", "📄");
   ("default", "📎")].

Fixpoint own (key : string) (o : list (string * string)) : option string :=
  match o with
  | [] => None
  | (k, v) :: rest => if String.eqb k key then Some v else own key rest
  end.

(** [getFileIcon(mimeType)]: [iconMap[mimeType] || iconMap.default]
    (drag-drop.js, lines 199-209).  Every text of the map is non-empty and
    every inherited member is an object, so only a missing key is falsy. *)
Definition getFileIcon (mimeType : string) : Icon :=
  match own mimeType iconMap with
  | Some text => IconText text
  | None =>
      if includes Object_prototype mimeType then IconInherited mimeType
      else IconText (default "" (own "default" iconMap))
  end.

(** [updatePreview(zone, fileData)] (drag-drop.js, lines 119-168) *)
Definition fileData_name (data : FileData) : string :=
  match data with
  | ImageData _ name _ => name
  | DocumentData name _ _ => name
  end.

Definition updatePreview (fileData : FileData) (z : Zone) : Zone :=
  if negb (has_preview z) then z
  else
    let z := set_preview (Some fileData) true
               (if has_uploadText z then false else uploadText_shown z) z in
    announceToScreenReader
      ("File " +:+ dquote +:+ fileData_name fileData +:+ dquote
       +:+ " uploaded successfully") z.

Section Uploads.

(** [formatFileSize(bytes)] (drag-drop.js, lines 191-197) is computed in
    floating point ([Math.log], [Math.pow], [toFixed]); its text is left
    open here. *)
Variable formatFileSize : N -> string.

(** [handleImageFile(file, zone)] starts a read; [reader.onload] shows the
    preview when the browser has the data URL (drag-drop.js, lines 82-93). *)
Definition handleImageFile (file : File) (z : Zone) : Zone :=
  set_reading (reading z ++ [file]) z.

Definition reader_onload (file : File) (result : string) (z : Zone) : Zone :=
  updatePreview
    (ImageData result (file_name file) (formatFileSize (file_size file))) z.

(** [handleDocumentFile(file, zone)] (drag-drop.js, lines 95-102) *)
Definition handleDocumentFile (file : File) (z : Zone) : Zone :=
  updatePreview
    (DocumentData (file_name file) (formatFileSize (file_size file))
                  (getFileIcon (file_type file))) z.

Definition maxSize : N := 10 * 1024 * 1024.
Definition allowedTypes : list string :=
  ["image/jpeg"; "image/png"; "image/gif"; "application/pdf"; "text/plain"].

(** The callback of [Array.from(files).filter(..)]
    (drag-drop.js, lines 48-63). *)
Definition validate (file : File) (z : Zone) : bool * Zone :=
  if (maxSize <? file_size file)%N then
    (false,
     showNotification
       ("File " +:+ dquote +:+ file_name file +:+ dquote
        +:+ " is too large. Maximum size is 10MB.") "error" z)
  else if negb (includes allowedTypes (file_type file)) then
    (false,
     showNotification
       ("File type " +:+ dquote +:+ file_type file +:+ dquote
        +:+ " is not allowed.") "error" z)
  else (true, z).

(** [filter], the callback run on each file in order. *)
Fixpoint filter_files (files : list File) (z : Zone) : list File * Zone :=
  match files with
  | [] => ([], z)
  | file :: rest =>
      let '(keep, z) := validate file z in
      let '(kept, z) := filter_files rest z in
      (if keep then file :: kept else kept, z)
  end.

(** The callback of [validFiles.forEach(..)] (drag-drop.js, lines 68-74). *)
Definition process (file : File) (z : Zone) : Zone :=
  if String.prefix "image/" (file_type file) then handleImageFile file z
  else handleDocumentFile file z.

(** [handleFiles(files)] (drag-drop.js, lines 44-80) *)
Definition handleFiles (files : list File) (z : Zone) : Zone :=
  match files with
  | [] => z
  | _ =>
      let '(validFiles, z) := filter_files files z in
      match validFiles with
      | [] => z
      | _ =>
          let z := fold_left (fun z file => process file z) validFiles z in
          set_input_files validFiles z
      end
  end.

(** The input's [change] listener: the browser has put the selection into
    [input.files] (drag-drop.js, line 36).  [handleDrop] hands over the
    dropped files, which the input does not hold (lines 38-42). *)
Definition input_change (files : list File) (z : Zone) : Zone :=
  handleFiles files (set_input_files files z).

Definition handleDrop (files : list File) (z : Zone) : Zone :=
  handleFiles files z.

End Uploads.

(** A file passes: at most 10 MB and of an allowed type. *)
Definition accepted (file : File) : bool :=
  (file_size file <=? 10485760)%N && includes allowedTypes (file_type file).

(** The error shown for a file that does not pass. *)
Definition rejection (file : File) : option (string * string) :=
  if (10485760 <? file_size file)%N then
    Some ("File " +:+ dquote +:+ file_name file +:+ dquote
          +:+ " is too large. Maximum size is 10MB.", "error")
  else if includes allowedTypes (file_type file) then None
  else Some ("File type " +:+ dquote +:+ file_type file +:+ dquote
             +:+ " is not allowed.", "error").

Definition is_image (file : File) : bool := String.prefix "image/" (file_type file).

(** [ns] more notifications on the page. *)
Definition notified (ns : list (string * string)) (z : Zone) : Zone :=
  {| has_preview := has_preview z; has_uploadText := has_uploadText z;
     preview := preview z; preview_shown := preview_shown z;
     uploadText_shown := uploadText_shown z; input_files := input_files z;
     reading := reading z; notifications := notifications z ++ ns;
     announcements := announcements z |}.

(** The preview of a document. *)
Definition document_preview (formatFileSize : N -> string) (file : File) : FileData :=
  DocumentData (file_name file) (formatFileSize (file_size file))
    (IconText (if String.eqb (file_type file) "application/pdf"
               then "📄" else "📝")).

(** The accepted files that are not images, which are previewed at once. *)
Definition documents (files : list File) : list File :=
  List.filter (fun file => negb (is_image file)) files.

(** A drop zone with both elements and nothing selected, a text and an
    image that pass, and a film that does not. *)
Definition zone0 : Zone :=
  {| has_preview := true; has_uploadText := true; preview := None;
     preview_shown := false; uploadText_shown := true; input_files := [];
     reading := []; notifications := []; announcements := [] |}.

Definition notes_txt : File := mkFile "notes.txt" 120 "text/plain".
Definition photo_png : File := mkFile "photo.png" 204800 "image/png".
Definition film_mp4 : File := mkFile "film.mp4" 52428800 "video/mp4".

(** A stand-in for the text of [formatFileSize]. *)
Definition size_in_bytes (bytes : N) : string := pretty bytes +:+ " Bytes".

(** ** [VideoCallUI]: the call controls and the incoming-call modal

    The rest of the page [VideoCallUI] writes to: the three buttons of the
    call container, the incoming-call modal, and the requests sent to the
    server.  (drag-drop.js, lines 496-534, 557-608 and 632-642) *)

Record Request : Type := mkRequest {
  req_url : string;
  req_method : string;
  req_headers : list (string * string)
}.

Record Dom : Type := mkDom {
  dom_page : Page;
  incomingCallModalShown : bool;        (* incomingCallModal.style.display *)
  micBtn_muted : bool;                  (* #mic-btn has class 'muted' *)
  videoBtn_disabled : bool;             (* #video-btn has class 'disabled' *)
  screenBtn_active : bool;              (* #screen-btn has class 'active' *)
  requests : list Request               (* fetch(url, options), in order *)
}.

(** Programs over the whole page. *)
Definition D (A : Type) : Type := Dom -> Completion A * Dom.

Definition d_ret {A} (a : A) : D A := fun s => (Normal a, s).

Definition d_bind {A B} (m : D A) (k : A -> D B) : D B :=
  fun s => match m s with
           | (Normal a, s') => k a s'
           | (Throw e, s') => (Throw e, s')
           end.

Definition d_throw {A} (e : JsError) : D A := fun s => (Throw e, s).

Definition d_try_catch {A} (body : D A) (handler : JsError -> D A) : D A :=
  fun s => match body s with
           | (Normal a, s') => (Normal a, s')
           | (Throw e, s') => handler e s'
           end.

Definition set_dom_page (p : Page) (s : Dom) : Dom :=
  {| dom_page := p; incomingCallModalShown := incomingCallModalShown s;
     micBtn_muted := micBtn_muted s; videoBtn_disabled := videoBtn_disabled s;
     screenBtn_active := screenBtn_active s; requests := requests s |}.

(** A program of the call manager or of the call-state wiring, run on its
    part of the page. *)
Definition lift {A} (m : M A) : D A :=
  fun s => let '(c, p) := m (dom_page s) in (c, set_dom_page p s).

Definition set_incomingCallModal (shown : bool) : D unit :=
  fun s => (Normal tt,
            {| dom_page := dom_page s; incomingCallModalShown := shown;
               micBtn_muted := micBtn_muted s;
               videoBtn_disabled := videoBtn_disabled s;
               screenBtn_active := screenBtn_active s; requests := requests s |}).

Definition set_micBtn_muted (muted : bool) : D unit :=
  fun s => (Normal tt,
            {| dom_page := dom_page s;
               incomingCallModalShown := incomingCallModalShown s;
               micBtn_muted := muted; videoBtn_disabled := videoBtn_disabled s;
               screenBtn_active := screenBtn_active s; requests := requests s |}).

Definition set_videoBtn_disabled (disabled : bool) : D unit :=
  fun s => (Normal tt,
            {| dom_page := dom_page s;
               incomingCallModalShown := incomingCallModalShown s;
               micBtn_muted := micBtn_muted s; videoBtn_disabled := disabled;
               screenBtn_active := screenBtn_active s; requests := requests s |}).

Definition set_screenBtn_active (active : bool) : D unit :=
  fun s => (Normal tt,
            {| dom_page := dom_page s;
               incomingCallModalShown := incomingCallModalShown s;
               micBtn_muted := micBtn_muted s;
               videoBtn_disabled := videoBtn_disabled s;
               screenBtn_active := active; requests := requests s |}).

Definition d_self : D VideoCallUI := fun s => (Normal (ui (dom_page s)), s).
Definition d_dom : D Dom := fun s => (Normal s, s).

Section Controls.

Variable platform : Platform.

(** Room on the stack for nested calls of the state handler. *)
Variable depth : nat.

(** What [checkPermissions()] resolves to (drag-drop.js, lines 684-693). *)
Variable hasPermissions : bool.

(** [getCSRFToken()]: the value of the page's token field; a TypeError when
    the page has none (drag-drop.js, lines 816-818). *)
Variable getCSRFToken : Result string.

(** The server: [response.ok] of the response to a request, or the error
    the promise of [fetch] rejects with. *)
Variable server : Request -> Result bool.

(** [await fetch(url, options)] *)
Definition fetch (request : Request) : D bool :=
  fun s =>
    let s' := {| dom_page := dom_page s;
                 incomingCallModalShown := incomingCallModalShown s;
                 micBtn_muted := micBtn_muted s;
                 videoBtn_disabled := videoBtn_disabled s;
                 screenBtn_active := screenBtn_active s;
                 requests := requests s ++ [request] |} in
    match server request with
    | Ok ok => (Normal ok, s')
    | Err e => (Throw e, s')
    end.

Definition csrf_token : D string :=
  match getCSRFToken with Ok token => d_ret token | Err e => d_throw e end.

(** [toggleMic()] (drag-drop.js, lines 557-571) *)
Definition toggleMic : D unit :=
  d_bind d_self (fun u =>
  if callManager u then
    d_bind (lift toggleAudio) (fun enabled =>
    if enabled then set_micBtn_muted false else set_micBtn_muted true)
  else d_ret tt).

(** [toggleVideo()] (drag-drop.js, lines 573-587) *)
Definition ui_toggleVideo : D unit :=
  d_bind d_self (fun u =>
  if callManager u then
    d_bind (lift toggleVideo) (fun enabled =>
    if enabled then set_videoBtn_disabled false else set_videoBtn_disabled true)
  else d_ret tt).

(** [toggleScreenShare()] (drag-drop.js, lines 589-608) *)
Definition toggleScreenShare : D unit :=
  d_bind d_self (fun u =>
  if callManager u then
    d_bind d_dom (fun s =>
    if screenBtn_active s then
      d_bind (lift (stopScreenShare platform)) (fun _ =>
      set_screenBtn_active false)
    else
      d_bind (lift (startScreenShare platform)) (fun success =>
      if success then set_screenBtn_active true else d_ret tt))
  else d_ret tt).

(** [hideIncomingCall()] (drag-drop.js, lines 632-635) *)
Definition hideIncomingCall : D unit :=
  d_bind (set_incomingCallModal false) (fun _ =>
  lift (update_ui (UI.set_currentCallSessionId None))).

Definition accept_request (callSessionId token : string) : Request :=
  {| req_url := "/chat/accept-call/" +:+ callSessionId +:+ "/";
     req_method := "POST";
     req_headers := [("X-CSRFToken", token);
                     ("Content-Type", "application/json")] |}.

Definition decline_request (callSessionId token : string) : Request :=
  {| req_url := "/chat/decline-call/" +:+ callSessionId +:+ "/";
     req_method := "POST";
     req_headers := [("X-CSRFToken", token)] |}.

(** [acceptIncomingCall(callSessionId, callType)]
    (drag-drop.js, lines 496-518) *)
Definition acceptIncomingCall (callSessionId callType : string) : D unit :=
  d_try_catch
    (d_bind csrf_token (fun token =>
     d_bind (fetch (accept_request callSessionId token)) (fun ok =>
     if ok then
       d_bind (lift (ui_startCall platform depth hasPermissions
                                  callSessionId callType false)) (fun _ =>
       hideIncomingCall)
     else d_throw (Error "Failed to accept call"))))
    (fun error =>
       lift (console_error "Failed to accept call:" error ;;
             UI.showError "Failed to accept call" (err_message error))).

(** [declineCall()] (drag-drop.js, lines 520-534) *)
Definition declineCall : D unit :=
  d_bind d_self (fun u =>
  d_bind
    (match currentCallSessionId u with
     | Some callSessionId =>
         if String.eqb callSessionId "" then d_ret tt
         else
           d_try_catch
             (d_bind csrf_token (fun token =>
              d_bind (fetch (decline_request callSessionId token)) (fun _ =>
              d_ret tt)))
             (fun error => lift (console_error "Failed to decline call:" error))
     | None => d_ret tt
     end) (fun _ =>
  hideIncomingCall)).

(** [getCurrentCallData()] (drag-drop.js, lines 820-826) *)
Definition getCurrentCallData : D (option string * string) :=
  d_bind d_self (fun u => d_ret (currentCallSessionId u, "voice")).

(** [acceptCall()] (drag-drop.js, lines 637-642) *)
Definition acceptCall : D unit :=
  d_bind d_self (fun u =>
  match currentCallSessionId u with
  | Some callSessionId =>
      if String.eqb callSessionId "" then d_ret tt
      else
        d_bind getCurrentCallData (fun callData =>
        acceptIncomingCall callSessionId (snd callData))
  | None => d_ret tt
  end).

End Controls.

(** Is the first audio (video) track of the local stream enabled?  False
    when there is no stream or no such track. *)
Definition first_track_enabled (k : string) (p : Page) : bool :=
  match localStream (mgr p) with
  | Some stream =>
      match tracks_of_kind k (tracks p) stream with
      | track :: _ => default false (enabled <$> tracks p !! track)
      | [] => false
      end
  | None => false
  end.

(** The page [p] with its controls in their initial state. *)
Definition dom_of (p : Page) : Dom :=
  {| dom_page := p; incomingCallModalShown := false; micBtn_muted := false;
     videoBtn_disabled := false; screenBtn_active := false; requests := [] |}.

(** An invitation to the session [sess-7] is on display. *)
Definition dom_invited : Dom :=
  {| dom_page := snd (update_ui (UI.set_currentCallSessionId (Some "sess-7")) page0);
     incomingCallModalShown := true; micBtn_muted := false;
     videoBtn_disabled := false; screenBtn_active := false; requests := [] |}.

(** A server that accepts every request, and one that is unreachable. *)
Definition server_ok : Request -> Result bool := fun _ => Ok true.
Definition server_down : Request -> Result bool :=
  fun _ => Err (TypeError "Failed to fetch").

(** * Properties *)

Lemma count_app f tr1 tr2 : count f (tr1 ++ tr2) = count f tr1 + count f tr2.
Proof. unfold count. by rewrite List.filter_app, length_app. Qed.

Lemma count_track_stops f stream :
  (forall id, f (EvTrackStop id) = false) ->
  count f (map EvTrackStop stream) = 0.
Proof.
  intros Hf. induction stream as [|id stream IH]; [done|].
  unfold count in *. simpl. by rewrite Hf.
Qed.

Lemma count_track_stop_of id stream :
  count (is_track_stop id) (map EvTrackStop stream)
  = length (List.filter (fun i => Nat.eqb i id) stream).
Proof.
  induction stream as [|i stream IH]; [done|].
  unfold count in *. simpl. destruct (Nat.eqb i id); simpl; by rewrite IH.
Qed.

Lemma forEach_stop stream : forall p,
  forEach stream (fun track =>
    emit (EvTrackStop track) ;; update_tracks (alter stop_track track)) p
  = (Normal tt, {| mgr := mgr p; ui := ui p;
                   tracks := stop_all stream (tracks p);
                   trace := trace p ++ map EvTrackStop stream |}).
Proof.
  induction stream as [|id stream IH]; intros [m u h tr]; simpl.
  - unfold ret. by rewrite app_nil_r.
  - unfold bind at 1. unfold bind at 1. simpl. rewrite IH. simpl.
    by rewrite <- app_assoc.
Qed.

(** Unfolds the monad's plumbing, leaving [forEach], the oracles and the
    subscriber alone. *)
Ltac run :=
  cbv [bind this page emit update_mgr update_ui update_tracks ret throw
       try_catch await console_error new_stream mgr ui tracks trace non_null default
       peerConnection localStream remoteStream signalingSocket callSessionId
       isInitiator callType onCallStateChange onRemoteStream onLocalStream
       set_peerConnection set_localStream set_remoteStream set_signalingSocket
       set_session readyState ws_url decide decide_rel bool_decide
       ReadyState_eq_dec ReadyState_rect ReadyState_rec sumbool_rec sumbool_rect].

(** [endCall] is the four teardown steps followed, always, by
    [updateCallState('ended')]. *)
Lemma endCall_unfold subscriber p :
  endCall subscriber p = updateCallState subscriber "ended" (teardown_page p).
Proof.
  destruct p as [m u h tr].
  destruct m as [pc ls rs sock sid init ty ocs ors ols].
  unfold endCall, teardown_page, teardown_events, socket_is_open, released,
    sendSignalingMessage.
  destruct sock as [[url rd]|], pc as [pc|], ls as [stream|];
    try destruct rd; run; rewrite ?forEach_stop; run;
    rewrite ?app_nil_r, <- ?app_assoc; reflexivity.
Qed.

Lemma updateCallState_passive state p :
  updateCallState passive state p
  = (Normal tt, {| mgr := mgr p; ui := ui p; tracks := tracks p;
                   trace := trace p ++ (if onCallStateChange (mgr p)
                                        then [EvStateChange state] else []) |}).
Proof.
  destruct p as [m u h tr]. unfold updateCallState, passive. run.
  destruct m as [pc ls rs sock sid init ty [] ors ols]; simpl;
    by rewrite ?app_nil_r.
Qed.

(** One hang-up with an observing subscriber. *)
Lemma endCall_passive p :
  endCall passive p
  = (Normal tt,
     {| mgr := released (mgr p); ui := ui p;
        tracks := stop_all (default [] (localStream (mgr p))) (tracks p);
        trace := trace p ++ teardown_events (mgr p)
                 ++ (if onCallStateChange (mgr p)
                     then [EvStateChange "ended"] else []) |}).
Proof.
  rewrite endCall_unfold, updateCallState_passive. simpl.
  by rewrite <- app_assoc.
Qed.

(** Nothing is left to tear down once the resources are released. *)
Lemma teardown_events_released m : teardown_events (released m) = [].
Proof. reflexivity. Qed.

Lemma stop_track_idemp t : stop_track (stop_track t) = stop_track t.
Proof. reflexivity. Qed.

Lemma stop_all_lookup stream : forall (h : TrackHeap) id,
  stop_all stream h !! id
  = if bool_decide (id ∈ stream) then stop_track <$> h !! id else h !! id.
Proof.
  induction stream as [|a stream IH]; intros h id; simpl.
  - reflexivity.
  - rewrite IH. destruct (decide (a = id)) as [->|Hne].
    + rewrite lookup_alter_eq.
      rewrite (bool_decide_eq_true_2 (id ∈ id :: stream)) by (apply elem_of_cons; by left).
      case_bool_decide; [|done].
      destruct (h !! id) as [t|]; reflexivity.
    + rewrite lookup_alter_ne by done.
      rewrite (bool_decide_ext (id ∈ a :: stream) (id ∈ stream)); [done|].
      rewrite elem_of_cons. intuition congruence.
Qed.

(** ** Hang-up: teardown, its order, and what a second hang-up does *)

(** What one hang-up does release.  With the signaling socket open, a live
    peer connection and a local stream, one [endCall] sends the hangup
    message, closes the peer connection, stops every track of
    [this.localStream], closes the socket and then notifies ['ended'], in
    that order and with nothing else; after it the three resource fields
    are null and every track of that stream shows stopped.  Tracks that are
    not in [this.localStream] are left as they are. *)
Theorem endCall_teardown_complete p pc stream sock :
  peerConnection (mgr p) = Some pc ->
  localStream (mgr p) = Some stream ->
  signalingSocket (mgr p) = Some sock ->
  readyState sock = OPEN ->
  exists p',
    endCall passive p = (Normal tt, p') /\
    trace p' = trace p
               ++ [EvSend (JObj [("type", JStr "hangup"); ("hangup", JObj [])]);
                   EvPcClose]
               ++ map EvTrackStop stream
               ++ [EvSocketClose]
               ++ (if onCallStateChange (mgr p) then [EvStateChange "ended"] else []) /\
    peerConnection (mgr p') = None /\
    localStream (mgr p') = None /\
    signalingSocket (mgr p') = None /\
    (forall id t, id ∈ stream -> tracks p !! id = Some t ->
       tracks p' !! id = Some {| kind := kind t; enabled := enabled t;
                                 stopped := true |}) /\
    (forall id, id ∉ stream -> tracks p' !! id = tracks p !! id).
Proof.
  intros Hpc Hls Hsock Hopen. eexists. split; [apply endCall_passive|].
  cbn [mgr trace tracks]. repeat split.
  - unfold teardown_events, socket_is_open. rewrite Hpc, Hls, Hsock, Hopen.
    simpl. by rewrite <- !app_assoc.
  - intros id t Hin Ht. rewrite Hls. simpl. rewrite stop_all_lookup.
    rewrite bool_decide_eq_true_2 by done. by rewrite Ht.
  - intros id Hnin. rewrite Hls. simpl. rewrite stop_all_lookup.
    by rewrite bool_decide_eq_false_2.
Qed.

Lemma endCall_teardown_complete_witness :
  exists p',
    endCall passive page_in_call = (Normal tt, p') /\
    trace p' = trace page_in_call
               ++ [EvSend (JObj [("type", JStr "hangup"); ("hangup", JObj [])]);
                   EvPcClose]
               ++ map EvTrackStop [0; 1]
               ++ [EvSocketClose]
               ++ (if onCallStateChange (mgr page_in_call)
                   then [EvStateChange "ended"] else []) /\
    peerConnection (mgr p') = None /\
    localStream (mgr p') = None /\
    signalingSocket (mgr p') = None /\
    (forall id t, id ∈ [0; 1] -> tracks page_in_call !! id = Some t ->
       tracks p' !! id = Some {| kind := kind t; enabled := enabled t;
                                 stopped := true |}) /\
    (forall id, id ∉ [0; 1] -> tracks p' !! id = tracks page_in_call !! id).
Proof.
  eapply (endCall_teardown_complete page_in_call); vm_compute; reflexivity.
Defined.

(** Two sessions as the claim describes them, with screen sharing used:
    the call of [page_in_call] while the screen is shared, and the same
    call after sharing was stopped again. *)
Lemma screen_share_sessions :
  let p1 := snd (startScreenShare browser page_in_call) in
  let p2 := snd (stopScreenShare browser p1) in
  fst (startScreenShare browser page_in_call) = Normal true /\
  fst (stopScreenShare browser p1) = Normal tt /\
  localStream (mgr p1) = Some [0; 1] /\
  localStream (mgr p2) = Some [0; 1] /\
  pc_senders <$> peerConnection (mgr p1) = Some [0; 2] /\
  pc_senders <$> peerConnection (mgr p2) = Some [0; 3] /\
  socket_is_open (mgr p1) = true /\
  socket_is_open (mgr p2) = true /\
  tracks p1 !! 2 = Some (mkTrack "video" true false) /\
  tracks p2 !! 3 = Some (mkTrack "video" true false).
Proof. vm_compute. repeat split; reflexivity. Qed.

(** C6, as the code has it.  [endCall] stops the tracks of
    [this.localStream] and no other local media track.  The screen capture
    that [startScreenShare] obtained, and the camera track that
    [stopScreenShare] obtained to replace it, are handed to the sender and
    kept nowhere else, so a hang-up cannot reach them: in a session with an
    open socket, a live connection and a local stream, one [endCall] runs
    its four steps in order, returns, and leaves the screen capture (and,
    after [stopScreenShare], the second camera track) live, although the
    connection that sent them is closed and the state is ['ended']. *)
Theorem endCall_leaves_screen_share_tracks_live :
  let p1 := snd (startScreenShare browser page_in_call) in
  let p2 := snd (stopScreenShare browser p1) in
  let ended1 := snd (endCall passive p1) in
  let ended2 := snd (endCall passive p2) in
  (* while the screen is shared *)
  fst (endCall passive p1) = Normal tt /\
  trace ended1
  = trace p1 ++ [EvSend hangup_wire; EvPcClose; EvTrackStop 0; EvTrackStop 1;
                 EvSocketClose; EvStateChange "ended"] /\
  peerConnection (mgr ended1) = None /\
  localStream (mgr ended1) = None /\
  signalingSocket (mgr ended1) = None /\
  tracks ended1 !! 0 = Some (mkTrack "audio" true true) /\
  tracks ended1 !! 1 = Some (mkTrack "video" true true) /\
  tracks ended1 !! 2 = Some (mkTrack "video" true false) /\
  (* after sharing was stopped *)
  fst (endCall passive p2) = Normal tt /\
  trace ended2
  = trace p2 ++ [EvSend hangup_wire; EvPcClose; EvTrackStop 0; EvTrackStop 1;
                 EvSocketClose; EvStateChange "ended"] /\
  tracks ended2 !! 2 = Some (mkTrack "video" true false) /\
  tracks ended2 !! 3 = Some (mkTrack "video" true false).
Proof. vm_compute. repeat split; reflexivity. Qed.

(** C9.  While the signaling socket is absent or not OPEN,
    [sendSignalingMessage] does nothing at all: it returns normally and
    the page, trace included, is as before (nothing sent, nothing queued).
    An [endCall] in that situation completes without ever sending. *)
Theorem sendSignalingMessage_dropped_unless_open p :
  (forall sock, signalingSocket (mgr p) = Some sock -> readyState sock <> OPEN) ->
  (forall type data, sendSignalingMessage type data p = (Normal tt, p)) /\
  (exists evs p',
     endCall passive p = (Normal tt, p') /\
     trace p' = trace p ++ evs /\
     count is_send evs = 0).
Proof.
  intros Hclosed.
  assert (Hno : socket_is_open (mgr p) = false).
  { unfold socket_is_open. destruct (signalingSocket (mgr p)) as [sock|] eqn:E;
      [|done]. apply bool_decide_eq_false_2. by apply Hclosed. }
  split.
  - intros type data. destruct p as [m u h tr].
    destruct m as [pc ls rs sock sid init ty ocs ors ols].
    unfold socket_is_open in Hno. simpl in Hno.
    unfold sendSignalingMessage.
    destruct sock as [[url rd]|]; [|reflexivity].
    destruct rd; try reflexivity. by rewrite bool_decide_eq_true_2 in Hno.
  - do 2 eexists. split; [apply endCall_passive|]. split; [reflexivity|].
    unfold teardown_events. rewrite Hno.
    rewrite !count_app.
    rewrite count_track_stops by done.
    destruct (non_null (peerConnection (mgr p))),
             (non_null (signalingSocket (mgr p))),
             (onCallStateChange (mgr p)); reflexivity.
Qed.

Lemma sendSignalingMessage_dropped_unless_open_witness :
  (forall type data,
     sendSignalingMessage type data page_connecting = (Normal tt, page_connecting)) /\
  (exists evs p',
     endCall passive page_connecting = (Normal tt, p') /\
     trace p' = trace page_connecting ++ evs /\
     count is_send evs = 0).
Proof.
  apply (sendSignalingMessage_dropped_unless_open page_connecting).
  intros sock Hsock. vm_compute in Hsock. by inversion Hsock.
Defined.

Lemma screen_share_without_connection platform p :
  peerConnection (mgr p) = None ->
  fst (startScreenShare platform p) = Normal false /\
  fst (stopScreenShare platform p) = Normal tt.
Proof.
  destruct p as [m u h tr].
  destruct m as [pc ls rs sock sid init ty ocs ors ols]. simpl. intros ->.
  unfold startScreenShare, stopScreenShare, replace_video_track, on_pc. run.
  split.
  - destruct (mediaGetDisplayMedia platform _) as [ts|e]; [|done].
    by destruct (alloc_tracks ts h).
  - destruct (mediaGetUserMedia platform _) as [ts|e]; [|done].
    by destruct (alloc_tracks ts h).
Qed.

(** C10.  After a hang-up has released the local stream, the peer
    connection and the socket, [toggleAudio] and [toggleVideo] return false
    and leave the page as it is, and another [endCall] returns normally
    with every teardown step skipped: it sends nothing, closes nothing and
    stops nothing (its only effect is the unconditional ['ended']
    notification).  The two remaining controls do not fault either:
    whatever the browser answers, [startScreenShare] returns false and
    [stopScreenShare] returns, the missing connection being caught by
    their own [try]. *)
Theorem operations_safe_after_teardown p :
  let p1 := snd (endCall passive p) in
  peerConnection (mgr p1) = None /\
  localStream (mgr p1) = None /\
  signalingSocket (mgr p1) = None /\
  toggleAudio p1 = (Normal false, p1) /\
  toggleVideo p1 = (Normal false, p1) /\
  endCall passive p1
  = (Normal tt,
     {| mgr := mgr p1; ui := ui p1; tracks := tracks p1;
        trace := trace p1 ++ (if onCallStateChange (mgr p1)
                              then [EvStateChange "ended"] else []) |}) /\
  (forall platform,
     fst (startScreenShare platform p1) = Normal false /\
     fst (stopScreenShare platform p1) = Normal tt).
Proof.
  intros p1. subst p1. rewrite endCall_passive. cbn [snd].
  split; [reflexivity|]. split; [reflexivity|]. split; [reflexivity|].
  split; [reflexivity|]. split; [reflexivity|]. split.
  - rewrite endCall_passive. cbn [mgr ui tracks trace].
    destruct p as [m u h tr].
    by destruct m as [pc ls rs sock sid init ty ocs ors ols].
  - intros platform. by apply screen_share_without_connection.
Qed.

(** C1, as the code has it.  Two hang-ups in a row tear the resources down
    once (the second finds the three fields null): the peer connection and
    the socket are closed once and each track is stopped as often as the
    stream lists it, once.  But ['ended'] is notified twice whenever a
    subscriber is installed: the notification at the end of [endCall] has
    no guard. *)
Theorem endCall_twice_notifies_twice p :
  exists evs,
    (endCall passive ;; endCall passive) p
    = (Normal tt,
       {| mgr := released (mgr p); ui := ui p;
          tracks := stop_all (default [] (localStream (mgr p))) (tracks p);
          trace := trace p ++ evs |}) /\
    evs = teardown_events (mgr p)
          ++ (if onCallStateChange (mgr p)
              then [EvStateChange "ended"; EvStateChange "ended"] else []) /\
    count (is_state_change "ended") evs
    = (if onCallStateChange (mgr p) then 2 else 0) /\
    count is_pc_close evs = (if non_null (peerConnection (mgr p)) then 1 else 0) /\
    count is_socket_close evs
    = (if non_null (signalingSocket (mgr p)) then 1 else 0) /\
    (forall id,
       count (is_track_stop id) evs
       = length (List.filter (fun i => Nat.eqb i id)
                             (default [] (localStream (mgr p))))).
Proof.
  eexists. split; [|split; [reflexivity|]].
  - unfold bind. rewrite !endCall_passive. cbn [mgr ui tracks trace].
    destruct p as [m u h tr].
    destruct m as [pc ls rs sock sid init ty ocs ors ols].
    cbn [released set_signalingSocket set_localStream set_peerConnection
         localStream onCallStateChange mgr default stop_all foldl tracks trace].
    rewrite teardown_events_released. simpl.
    destruct ocs; by rewrite <- ?app_assoc, ?app_nil_r.
  - unfold teardown_events. rewrite !count_app.
    rewrite !count_track_stops by done.
    repeat split.
    + by destruct (socket_is_open (mgr p)), (non_null (peerConnection (mgr p))),
           (non_null (signalingSocket (mgr p))), (onCallStateChange (mgr p)).
    + by destruct (socket_is_open (mgr p)), (non_null (peerConnection (mgr p))),
           (non_null (signalingSocket (mgr p))), (onCallStateChange (mgr p)).
    + by destruct (socket_is_open (mgr p)), (non_null (peerConnection (mgr p))),
           (non_null (signalingSocket (mgr p))), (onCallStateChange (mgr p)).
    + intros id. rewrite !count_app, count_track_stop_of.
      set (n := length _).
      destruct (socket_is_open (mgr p)), (non_null (peerConnection (mgr p))),
        (non_null (signalingSocket (mgr p))), (onCallStateChange (mgr p));
        unfold count; simpl; lia.
Qed.

(** The same when the second hang-up is a remote one: the peer's hangup
    message runs [endCall] again. *)
Lemma remote_hangup_is_endCall platform p :
  onmessage platform passive hangup_wire p = endCall passive p.
Proof.
  unfold onmessage, JSON_parse, handleSignalingMessage, handleHangup.
  cbv [try_catch bind await get_prop hangup_wire obj_lookup default ret].
  simpl. rewrite endCall_passive. reflexivity.
Qed.

Lemma local_then_remote_hangup platform p :
  (endCall passive ;; onmessage platform passive hangup_wire) p
  = (endCall passive ;; endCall passive) p.
Proof. unfold bind. destruct (endCall passive p) as [[] p1]; [|done].
  apply remote_hangup_is_endCall. Qed.

Lemma count_teardown_events_state state m :
  count (is_state_change state) (teardown_events m) = 0.
Proof.
  unfold teardown_events. rewrite !count_app.
  rewrite count_track_stops by done.
  by destruct (socket_is_open m), (non_null (peerConnection m)),
              (non_null (signalingSocket m)).
Qed.

(** X12.  With the page's own subscriber the same defect does not stop at
    two.  [VideoCallUI.onCallStateChange('ended')] calls [VideoCallUI.endCall()],
    which finds [this.callManager] still set (it is cleared only after the
    manager's [endCall] returns) and calls the manager's [endCall] again,
    which notifies ['ended'] again.  Whatever room the stack has, one press
    of the hang-up button ends in a RangeError, with one ['ended']
    notification per nested call, and [callManager] is never cleared. *)
Lemma ui_endCall_overflows depth : forall p,
  callManager (ui p) = true ->
  onCallStateChange (mgr p) = true ->
  exists p' evs,
    ui_endCall depth p
    = (Throw (RangeError "Maximum call stack size exceeded"), p') /\
    trace p' = trace p ++ evs /\
    count (is_state_change "ended") evs = S depth /\
    callManager (ui p') = true.
Proof.
  induction depth as [|d IH]; intros p Hcm Hsub.
  - unfold ui_endCall, UI.endCall, UI.self.
    unfold bind at 1. cbn [fst snd]. rewrite Hcm.
    unfold bind at 1. unfold bind at 1. unfold bind at 1.
    rewrite endCall_unfold. unfold updateCallState, this.
    unfold bind at 1. cbn [mgr teardown_page].
    replace (onCallStateChange (released (mgr p))) with true
      by (by destruct p as [[] ? ? ?]; simpl in *).
    unfold bind at 1. unfold emit at 1. cbn [ui_subscriber throw].
    exists (snd (emit (EvStateChange "ended") (teardown_page p))),
           (teardown_events (mgr p) ++ [EvStateChange "ended"]).
    split; [reflexivity|]. cbn [trace ui mgr tracks teardown_page emit snd].
    split; [by rewrite <- app_assoc|].
    split; [|done].
    rewrite count_app, count_teardown_events_state. reflexivity.
  - unfold ui_endCall, UI.endCall, UI.self.
    unfold bind at 1. cbn [fst snd]. rewrite Hcm.
    unfold bind at 1. unfold bind at 1. unfold bind at 1.
    rewrite endCall_unfold. unfold updateCallState, this.
    unfold bind at 1. cbn [mgr teardown_page].
    replace (onCallStateChange (released (mgr p))) with true
      by (by destruct p as [[] ? ? ?]; simpl in *).
    unfold bind at 1. unfold emit at 1. cbn [ui_subscriber].
    unfold UI.onCallStateChange. cbn [String.eqb Ascii.eqb Bool.eqb].
    unfold bind at 1. unfold update_ui at 1.
    cbn [mgr ui tracks trace teardown_page].
    match goal with
    | |- context [UI.endCall ?e ?q] =>
        destruct (IH q) as (p' & evs & Hrun & Htr & Hcount & Hcm');
          [exact Hcm | by destruct p as [[] ? ? ?]; simpl in * |]
    end.
    unfold ui_endCall in Hrun. rewrite Hrun.
    exists p', (teardown_events (mgr p) ++ [EvStateChange "ended"] ++ evs).
    split; [reflexivity|]. split.
    + rewrite Htr. cbn [trace]. by rewrite <- !app_assoc.
    + split; [|done].
      rewrite !count_app, count_teardown_events_state, Hcount. reflexivity.
Qed.

(** The call of the examples, hung up twice: one teardown, two ['ended']
    notifications. *)
Example hangup_twice_in_call :
  let evs := drop (length (trace page_in_call))
                  (trace (snd ((endCall passive ;; endCall passive) page_in_call))) in
  count (is_state_change "ended") evs = 2 /\
  count is_send evs = 1 /\
  count is_pc_close evs = 1 /\
  count (is_track_stop 0) evs = 1 /\
  count (is_track_stop 1) evs = 1 /\
  count is_socket_close evs = 1.
Proof. vm_compute. repeat split. Qed.

(** The same call started and hung up through [VideoCallUI], with room
    for three nested handler calls. *)
Example ui_hangup_in_call :
  let p := snd ((ui_startCall browser 3 true "sess-1" "video" true ;;
                 socket_open_event) page0) in
  fst (ui_endCall 3 p) = Throw (RangeError "Maximum call stack size exceeded") /\
  count (is_state_change "ended") (trace (snd (ui_endCall 3 p))) = 4 /\
  callManager (ui (snd (ui_endCall 3 p))) = true /\
  callContainerShown (ui (snd (ui_endCall 3 p))) = callContainerShown (ui p).
Proof. vm_compute. repeat split. Qed.

(** ** Mute and camera toggles *)

Lemma flip_enabled_involutive t : flip_enabled (flip_enabled t) = t.
Proof. destruct t as [k e s]. unfold flip_enabled. simpl. by rewrite negb_involutive. Qed.

Lemma alter_flip_twice (h : TrackHeap) a :
  alter flip_enabled a (alter flip_enabled a h) = h.
Proof.
  apply map_eq. intros i. destruct (decide (a = i)) as [->|Hne].
  - rewrite !lookup_alter_eq. destruct (h !! i) as [t|]; [|done].
    simpl. by rewrite flip_enabled_involutive.
  - by rewrite !lookup_alter_ne.
Qed.

(** Flipping [enabled] moves no track in or out of [getAudioTracks()] or
    [getVideoTracks()]. *)
Lemma tracks_of_kind_alter_flip k (h : TrackHeap) a stream :
  tracks_of_kind k (alter flip_enabled a h) stream = tracks_of_kind k h stream.
Proof.
  unfold tracks_of_kind. induction stream as [|i stream IH]; [done|].
  simpl. rewrite IH.
  destruct (decide (a = i)) as [->|Hne].
  - rewrite lookup_alter_eq. by destruct (h !! i).
  - by rewrite lookup_alter_ne.
Qed.

Lemma tracks_of_kind_head k (h : TrackHeap) stream a rest :
  tracks_of_kind k h stream = a :: rest ->
  a ∈ stream /\ exists t, h !! a = Some t /\ kind t = k.
Proof.
  intros Heq.
  assert (Hin : In a (tracks_of_kind k h stream)) by (rewrite Heq; by left).
  apply List.filter_In in Hin as [Hin Hf]. split; [by apply list_elem_of_In|].
  destruct (h !! a) as [t|]; [|done].
  exists t. split; [done|]. by apply String.eqb_eq.
Qed.

Lemma toggle_flips k p stream a rest :
  localStream (mgr p) = Some stream ->
  tracks_of_kind k (tracks p) stream = a :: rest ->
  exists t,
    tracks p !! a = Some t /\ kind t = k /\ a ∈ stream /\
    toggle k p = (Normal (negb (enabled t)),
                  with_tracks (<[a := flip_enabled t]> (tracks p)) p) /\
    (toggle k ;; toggle k) p = (Normal (enabled t), p).
Proof.
  intros Hls Hk.
  destruct (tracks_of_kind_head _ _ _ _ _ Hk) as (Hin & t & Ht & Hkind).
  exists t. repeat split; try done.
  - destruct p as [m u h tr].
    destruct m as [pc ls rs sock sid init ty ocs ors ols].
    simpl in *. subst ls.
    unfold toggle. run. rewrite Hk.
    rewrite lookup_alter_eq, Ht. simpl. unfold with_tracks. simpl.
    do 2 f_equal. apply map_eq. intros i.
    destruct (decide (a = i)) as [->|Hne].
    + by rewrite lookup_alter_eq, lookup_insert_eq, Ht.
    + by rewrite lookup_alter_ne, lookup_insert_ne.
  - destruct p as [m u h tr].
    destruct m as [pc ls rs sock sid init ty ocs ors ols].
    simpl in *. subst ls.
    unfold toggle. run. rewrite Hk. run.
    rewrite tracks_of_kind_alter_flip, Hk. run.
    by rewrite alter_flip_twice, Ht.
Qed.

Lemma toggle_absent k p :
  (localStream (mgr p) = None \/
   exists stream, localStream (mgr p) = Some stream /\
                  tracks_of_kind k (tracks p) stream = []) ->
  toggle k p = (Normal false, p).
Proof.
  destruct p as [m u h tr].
  destruct m as [pc ls rs sock sid init ty ocs ors ols]. simpl.
  intros [Hls|(stream & Hls & Hk)]; subst ls; unfold toggle; run; [done|].
  by rewrite Hk.
Qed.

(** C7.  When the local stream has an audio (video) track, [toggleAudio]
    ([toggleVideo]) negates the [enabled] flag of the first such track and
    returns the new value; the stream's list of tracks, the peer connection
    and its senders, every other track and the trace are untouched, and a
    second call brings the whole page back to what it was.  Without a
    local stream, or without a track of that kind, the call returns false
    and changes nothing. *)
Theorem toggleAudio_toggleVideo_flip p :
  (forall stream a rest,
     localStream (mgr p) = Some stream ->
     tracks_of_kind "audio" (tracks p) stream = a :: rest ->
     exists t,
       tracks p !! a = Some t /\ kind t = "audio" /\ a ∈ stream /\
       toggleAudio p = (Normal (negb (enabled t)),
                        with_tracks (<[a := flip_enabled t]> (tracks p)) p) /\
       (toggleAudio ;; toggleAudio) p = (Normal (enabled t), p)) /\
  (forall stream a rest,
     localStream (mgr p) = Some stream ->
     tracks_of_kind "video" (tracks p) stream = a :: rest ->
     exists t,
       tracks p !! a = Some t /\ kind t = "video" /\ a ∈ stream /\
       toggleVideo p = (Normal (negb (enabled t)),
                        with_tracks (<[a := flip_enabled t]> (tracks p)) p) /\
       (toggleVideo ;; toggleVideo) p = (Normal (enabled t), p)) /\
  ((localStream (mgr p) = None \/
    exists stream, localStream (mgr p) = Some stream /\
                   tracks_of_kind "audio" (tracks p) stream = []) ->
   toggleAudio p = (Normal false, p)) /\
  ((localStream (mgr p) = None \/
    exists stream, localStream (mgr p) = Some stream /\
                   tracks_of_kind "video" (tracks p) stream = []) ->
   toggleVideo p = (Normal false, p)).
Proof.
  repeat split.
  - intros stream a rest. apply toggle_flips.
  - intros stream a rest. apply toggle_flips.
  - apply toggle_absent.
  - apply toggle_absent.
Qed.

(** In the video call of the examples the microphone is track 0 and the
    camera track 1, both enabled. *)
Lemma toggleAudio_toggleVideo_flip_witness :
  (toggleAudio ;; toggleAudio) page_in_call = (Normal true, page_in_call) /\
  fst (toggleVideo page_in_call) = Normal false.
Proof.
  destruct (toggleAudio_toggleVideo_flip page_in_call) as (Ha & Hv & _ & _).
  destruct (Ha [0; 1] 0 [] eq_refl eq_refl) as (t & Ht & _ & _ & _ & Htwice).
  destruct (Hv [0; 1] 1 [] eq_refl eq_refl) as (t' & Ht' & _ & _ & Hone & _).
  vm_compute in Ht, Ht'. injection Ht as <-. injection Ht' as <-.
  split; [exact Htwice | by rewrite Hone].
Defined.

(** ** Remote ICE candidates *)

Lemma with_events_nil p : with_events [] p = p.
Proof. destruct p. unfold with_events. simpl. by rewrite app_nil_r. Qed.

(** C8.  [handleIceCandidate] never throws, and whatever the candidate
    and the browser it leaves the UI, the tracks, the local stream and the
    socket alone and adds nothing to the trace but the [addIceCandidate]
    call and console errors: nothing is sent, closed or stopped and no
    state change is notified.  A falsy candidate (undefined, null, the
    empty string) is ignored: the page, trace included, is as before, also
    when it arrives in an [ice_candidate] message.  When the
    application fails (no peer connection, a candidate the browser cannot
    construct, or [addIceCandidate] rejecting) the error is written to the
    console and nothing else happens: the manager's fields, the tracks and
    the UI are unchanged, nothing is closed or stopped and no state change
    is notified.  Only a successful application changes anything, and that
    is the peer connection alone. *)
Theorem handleIceCandidate_non_aborting platform c p :
  fst (handleIceCandidate platform c p) = Normal tt /\
  (let p' := snd (handleIceCandidate platform c p) in
   ui p' = ui p /\ tracks p' = tracks p /\
   localStream (mgr p') = localStream (mgr p) /\
   signalingSocket (mgr p') = signalingSocket (mgr p) /\
   exists evs, trace p' = trace p ++ evs /\
               forallb is_ice_or_console evs = true) /\
  (truthy c = false ->
   handleIceCandidate platform c p = (Normal tt, p) /\
   forall subscriber,
     handleSignalingMessage platform subscriber
       (JObj [("type", JStr "ice_candidate"); ("candidate", c)]) p
     = (Normal tt, p)) /\
  (truthy c = true -> peerConnection (mgr p) = None ->
   handleIceCandidate platform c p
   = (Normal tt,
      with_events [EvConsoleError "Error handling ICE candidate:"
                     (TypeError "Cannot read properties of null")] p)) /\
  (forall pc e,
     truthy c = true -> peerConnection (mgr p) = Some pc ->
     newRTCIceCandidate platform c = Err e ->
     handleIceCandidate platform c p
     = (Normal tt,
        with_events [EvConsoleError "Error handling ICE candidate:" e] p)) /\
  (forall pc c' e,
     truthy c = true -> peerConnection (mgr p) = Some pc ->
     newRTCIceCandidate platform c = Ok c' ->
     pcAddIceCandidate platform pc c' = Err e ->
     handleIceCandidate platform c p
     = (Normal tt,
        with_events [EvAddIceCandidate c';
                     EvConsoleError "Error handling ICE candidate:" e] p)) /\
  (forall pc c' pc',
     truthy c = true -> peerConnection (mgr p) = Some pc ->
     newRTCIceCandidate platform c = Ok c' ->
     pcAddIceCandidate platform pc c' = Ok pc' ->
     handleIceCandidate platform c p
     = (Normal tt,
        {| mgr := set_peerConnection (Some pc') (mgr p); ui := ui p;
           tracks := tracks p; trace := trace p ++ [EvAddIceCandidate c'] |})).
Proof.
  destruct p as [m u h tr].
  destruct m as [pc0 ls rs sock sid init ty ocs ors ols].
  unfold with_events. simpl.
  split; [|split].
  { unfold handleIceCandidate. run.
    destruct (truthy c); [|done]. destruct pc0 as [pc|]; [|done].
    destruct (newRTCIceCandidate platform c) as [c'|e]; [|done].
    by destruct (pcAddIceCandidate platform pc c'). }
  { unfold handleIceCandidate. run.
    destruct (truthy c); [|by repeat split; exists []; rewrite app_nil_r].
    destruct pc0 as [pc|]; [|by repeat split; eexists].
    destruct (newRTCIceCandidate platform c) as [c'|e]; [|by repeat split; eexists].
    destruct (pcAddIceCandidate platform pc c'); simpl; repeat split;
      eexists; (split; [rewrite <- ?app_assoc; reflexivity | reflexivity]). }
  repeat split.
  - unfold handleIceCandidate. by rewrite H.
  - intros subscriber. unfold handleSignalingMessage, handleIceCandidate.
    unfold try_catch, bind, await. simpl. by rewrite H.
  - intros Ht ->. unfold handleIceCandidate. rewrite Ht. reflexivity.
  - intros pc e Ht -> Hnew. unfold handleIceCandidate. rewrite Ht. run.
    rewrite Hnew. reflexivity.
  - intros pc c' e Ht -> Hnew Hadd. unfold handleIceCandidate. rewrite Ht. run.
    rewrite Hnew, Hadd. run. by rewrite <- app_assoc.
  - intros pc c' pc' Ht -> Hnew Hadd. unfold handleIceCandidate. rewrite Ht. run.
    rewrite Hnew, Hadd. reflexivity.
Qed.

Lemma handleIceCandidate_non_aborting_witness :
  handleIceCandidate browser JNull page_in_call = (Normal tt, page_in_call) /\
  handleIceCandidate browser (JStr "") page_in_call = (Normal tt, page_in_call) /\
  handleIceCandidate browser early_candidate page_in_call
  = (Normal tt,
     with_events [EvAddIceCandidate early_candidate;
                  EvConsoleError "Error handling ICE candidate:"
                    (InvalidStateError "The remote description was null")]
                 page_in_call).
Proof.
  split; [|split].
  - destruct (handleIceCandidate_non_aborting browser JNull page_in_call)
      as (_ & _ & Hfalsy & _).
    exact (proj1 (Hfalsy eq_refl)).
  - destruct (handleIceCandidate_non_aborting browser (JStr "") page_in_call)
      as (_ & _ & Hfalsy & _).
    exact (proj1 (Hfalsy eq_refl)).
  - destruct (handleIceCandidate_non_aborting browser early_candidate page_in_call)
      as (_ & _ & _ & _ & _ & Hrej & _).
    eapply Hrej; [reflexivity | vm_compute; reflexivity ..].
Defined.

(** ** Signaling messages on the wire *)

(** [offer] and [answer] payloads do come back: the receiver reads the
    property the sender wrote, [data.offer] and [data.answer]. *)
Lemma offer_payload_round_trip sdp :
  let payload := JObj [("sdp", JStr sdp); ("type", JStr "offer")] in
  get_prop "offer"
    (JSON_parse (JSON_stringify
       (JObj (obj_set "offer" payload (obj_set "type" (JStr "offer") [])))))
  = Ok payload.
Proof. reflexivity. Qed.

Lemma answer_payload_round_trip sdp :
  let payload := JObj [("sdp", JStr sdp); ("type", JStr "answer")] in
  get_prop "answer"
    (JSON_parse (JSON_stringify
       (JObj (obj_set "answer" payload (obj_set "type" (JStr "answer") [])))))
  = Ok payload.
Proof. reflexivity. Qed.

(** C2, as the code has it.  A local candidate (an object) is sent as
    [{ type: 'ice_candidate', ice_candidate: { candidate } }], but
    [handleSignalingMessage] reads [data.candidate], a property that
    message does not have.  The peer therefore calls
    [handleIceCandidate(undefined)]: whatever the candidate, the browser
    and the subscriber, the peer's page is exactly as before and no
    candidate reaches its connection. *)
Theorem ice_candidate_message_not_applied platform subscriber props url ps pr :
  let candidate := JObj props in
  let sender := with_open_socket url ps in
  onicecandidate candidate sender
  = (Normal tt, with_events [EvSend (ice_wire candidate)] sender) /\
  get_prop "type" (JSON_parse (ice_wire candidate)) = Ok (JStr "ice_candidate") /\
  get_prop "candidate" (JSON_parse (ice_wire candidate)) = Ok JUndefined /\
  onmessage platform subscriber (ice_wire candidate) pr = (Normal tt, pr).
Proof.
  repeat split.
Qed.

Example ice_candidate_lost :
  onicecandidate early_candidate page_in_call
  = (Normal tt,
     with_events
       [EvSend (JObj [("type", JStr "ice_candidate");
                      ("ice_candidate", JObj [("candidate", early_candidate)])])]
       page_in_call) /\
  onmessage browser passive
    (JObj [("type", JStr "ice_candidate");
           ("ice_candidate", JObj [("candidate", early_candidate)])])
    page_responder
  = (Normal tt, page_responder) /\
  (* had the candidate been passed on, it would have been added *)
  fst (handleIceCandidate browser early_candidate page_responder) = Normal tt /\
  (pc_remoteCandidates <$>
     peerConnection (mgr (snd (handleIceCandidate browser early_candidate
                                 page_responder))))
  = Some [early_candidate].
Proof. vm_compute. repeat split. Qed.

(** ** Out-of-order signaling *)

(** C4, as amended.  The manager does not validate the order of
    descriptions itself; the browser does.  When the browser rejects a
    remote description (an answer with no offer pending, say),
    [handleAnswer] and [handleOffer] write the error to the console and
    return normally: no error reaches the caller.  When the browser
    rejects [createAnswer] (no remote offer applied), [createAnswer] logs
    and rethrows the browser's own error.  In all three cases the
    manager's fields, the tracks and the UI are unchanged, nothing is sent
    and no state change is notified. *)
Theorem out_of_order_signaling_logged platform p pc :
  peerConnection (mgr p) = Some pc ->
  (forall answer d e,
     newRTCSessionDescription platform answer = Ok d ->
     pcSetRemoteDescription platform pc d = Err e ->
     handleAnswer platform answer p
     = (Normal tt,
        with_events [EvSetRemoteDescription d;
                     EvConsoleError "Error handling answer:" e] p)) /\
  (forall offer d e,
     newRTCSessionDescription platform offer = Ok d ->
     pcSetRemoteDescription platform pc d = Err e ->
     handleOffer platform offer p
     = (Normal tt,
        with_events [EvSetRemoteDescription d;
                     EvConsoleError "Error handling offer:" e] p)) /\
  (forall e,
     pcCreateAnswer platform pc = Err e ->
     createAnswer platform p
     = (Throw e, with_events [EvConsoleError "Error creating answer:" e] p)).
Proof.
  destruct p as [m u h tr].
  destruct m as [pc0 ls rs sock sid init ty ocs ors ols]. simpl.
  intros ->. unfold with_events. simpl. repeat split.
  - intros answer d e Hnew Hset. unfold handleAnswer, pc_call. run.
    rewrite Hnew. run. rewrite Hset. by rewrite <- app_assoc.
  - intros offer d e Hnew Hset. unfold handleOffer, pc_call. run.
    rewrite Hnew. run. rewrite Hset. by rewrite <- app_assoc.
  - intros e Hcreate. unfold createAnswer, on_pc. run.
    rewrite Hcreate. reflexivity.
Qed.

Lemma out_of_order_signaling_logged_witness :
  handleAnswer browser remote_answer page_awaiting_offer
  = (Normal tt,
     with_events [EvSetRemoteDescription remote_answer;
                  EvConsoleError "Error handling answer:"
                    (InvalidStateError "Called in wrong state")]
                 page_awaiting_offer) /\
  createAnswer browser page_awaiting_offer
  = (Throw (InvalidStateError "No remote offer to answer"),
     with_events [EvConsoleError "Error creating answer:"
                    (InvalidStateError "No remote offer to answer")]
                 page_awaiting_offer).
Proof.
  destruct (out_of_order_signaling_logged browser page_awaiting_offer
              (addTrack 1 (addTrack 0 (newRTCPeerConnection iceServers))) eq_refl)
    as (Hanswer & _ & Hcreate).
  split.
  - apply Hanswer; reflexivity.
  - apply Hcreate; reflexivity.
Defined.

(** The claim as stated fails: an answer that arrives before any offer was
    sent does not make [handleAnswer] fail, and what [createAnswer]
    throws is the browser's InvalidStateError. *)
Lemma answer_before_offer_does_not_fail :
  fst (handleAnswer browser remote_answer page_awaiting_offer) = Normal tt /\
  fst (createAnswer browser page_awaiting_offer)
  <> Throw (mkError "InvalidSignalingState" "No remote offer to answer").
Proof. split; [reflexivity | vm_compute; discriminate]. Qed.

(** ** Media access denied *)

Lemma getUserMedia_denied platform e p :
  mediaGetUserMedia platform (media_constraints (callType (mgr p))) = Err e ->
  getUserMedia platform p
  = (Throw media_error,
     with_events [EvConsoleError "Error accessing media devices:" e] p).
Proof.
  intros Hdenied. destruct p as [m u h tr].
  unfold media_constraints in Hdenied. cbn [mgr] in Hdenied.
  unfold getUserMedia, bind at 1, this at 1. cbn [mgr].
  unfold try_catch, bind at 1. rewrite Hdenied. reflexivity.
Qed.

(** C5, as amended.  When the browser rejects the media request of this
    start (the constraints [getUserMedia] builds for the call type),
    whatever its error, [initializeCall] notifies ['failed'] once if a
    subscriber is installed (the notification carries no reason), creates
    neither a peer
    connection nor a signaling socket nor a local stream, and rethrows a
    generic [Error] to its caller.  That caller, [VideoCallUI.startCall],
    catches it and shows it: the failure is handled in UI code, after the
    UI's own ['failed'] handler has run. *)
Theorem initializeCall_media_denied platform e id ty init p :
  mediaGetUserMedia platform (media_constraints ty) = Err e ->
  initializeCall platform passive id ty init p
  = (Throw media_error,
     {| mgr := set_session id ty init (mgr p); ui := ui p; tracks := tracks p;
        trace := trace p
                 ++ [EvConsoleError "Error accessing media devices:" e;
                     EvConsoleError "Failed to initialize call:" media_error]
                 ++ (if onCallStateChange (mgr p)
                     then [EvStateChange "failed"] else []) |}) /\
  (forall depth, exists p',
     ui_startCall platform (S depth) true id ty init p = (Normal tt, p') /\
     trace p'
     = trace p
       ++ [EvConsoleError "Error accessing media devices:" e;
           EvConsoleError "Failed to initialize call:" media_error;
           EvStateChange "failed";
           EvShowError "Call Failed" "Unable to establish connection";
           EvConsoleError "Failed to start call:" media_error;
           EvShowError "Failed to start call"
             "Could not access camera/microphone. Please check permissions."] /\
     peerConnection (mgr p') = peerConnection (mgr p) /\
     localStream (mgr p') = localStream (mgr p) /\
     signalingSocket (mgr p') = signalingSocket (mgr p)).
Proof.
  intros Hdenied. split.
  - unfold initializeCall.
    unfold bind at 1. unfold update_mgr at 1.
    unfold try_catch at 1. unfold bind at 1.
    rewrite (getUserMedia_denied platform e)
      by (by destruct p as [[] ? ? ?]).
    unfold bind at 1. unfold console_error at 1, emit at 1.
    unfold bind at 1. rewrite updateCallState_passive.
    destruct p as [m u h tr].
    destruct m as [pc ls rs sock sid init0 ty0 ocs ors ols].
    unfold with_events, throw. simpl. by rewrite <- !app_assoc.
  - intros depth. eexists. split.
    + unfold ui_startCall, UI.startCall, initializeCall.
      unfold try_catch at 1. cbn [negb].
      unfold bind at 1. unfold update_ui at 1.
      unfold bind at 1. unfold update_mgr at 1.
      unfold bind at 1. unfold bind at 1. unfold update_mgr at 1.
      unfold try_catch at 1. unfold bind at 1.
      rewrite (getUserMedia_denied platform e)
      by (by destruct p as [[] ? ? ?]).
      unfold with_events, updateCallState. cbn. reflexivity.
    + destruct p as [m u h tr].
      destruct m as [pc ls rs sock sid init0 ty0 ocs ors ols].
      cbn. repeat split. by rewrite <- !app_assoc.
Qed.

Lemma initializeCall_media_denied_witness :
  mediaGetUserMedia browser_denying_camera (media_constraints "voice")
  = Ok [mkTrack "audio" true false] /\
  initializeCall browser_denying_camera passive "sess-1" "video" true
                 page_subscribed
  = (Throw media_error,
     {| mgr := set_session "sess-1" "video" true (mgr page_subscribed);
        ui := ui0; tracks := ∅;
        trace := [EvConsoleError "Error accessing media devices:"
                    (NotAllowedError "Permission denied");
                  EvConsoleError "Failed to initialize call:" media_error;
                  EvStateChange "failed"] |}).
Proof.
  split; [reflexivity|].
  apply (initializeCall_media_denied browser_denying_camera
           (NotAllowedError "Permission denied") "sess-1" "video" true
           page_subscribed eq_refl).
Defined.

(** The claim as stated fails: the start does not resolve, it rejects, and
    the error that comes out does not say that permission was denied. *)
Lemma media_denied_rejects_with_generic_error :
  fst (initializeCall browser_denying passive "sess-1" "video" true page_subscribed)
  = Throw (mkError "Error"
             "Could not access camera/microphone. Please check permissions.").
Proof. reflexivity. Qed.

(** ** The values delivered to the subscriber *)

(** C3, as the code has it.  When the browser reports the connection
    state [failed] or [disconnected], the subscriber is handed the string
    ['disconnected'], which is not a CallState value (and which
    [VideoCallUI.onCallStateChange] has no case for). *)
Theorem connection_failure_notifies_disconnected pc p :
  connection_state_event passive "failed" (with_connection pc p)
  = (Normal tt,
     with_events [EvStateChange "disconnected"]
       (with_connection (with_connectionState "failed" pc) p)) /\
  connection_state_event passive "disconnected" (with_connection pc p)
  = (Normal tt,
     with_events [EvStateChange "disconnected"]
       (with_connection (with_connectionState "disconnected" pc) p)) /\
  "disconnected" ∉ CallState.
Proof.
  repeat split.
  unfold CallState. rewrite !elem_of_cons, elem_of_nil.
  intros H. repeat (destruct H as [H|H]; [discriminate|]). done.
Qed.

(** The UI does nothing at all with that value: the call window stays as
    it is, with its resources held. *)
Example ui_ignores_disconnected depth p :
  UI.onCallStateChange (endCall (ui_subscriber depth)) "disconnected" p
  = (Normal tt, p).
Proof. reflexivity. Qed.

Example connection_failure_in_call :
  connection_state_event passive "failed" page_in_call
  = (Normal tt,
     with_events [EvStateChange "disconnected"]
       (with_connection
          (with_connectionState "failed"
             (default (newRTCPeerConnection [])
                      (peerConnection (mgr page_in_call))))
          page_in_call)).
Proof. vm_compute. reflexivity. Qed.

(** ** Every run of the manager

    The entry points the page and the browser can call, in any order. *)
Section Appends.

Variable ok : Event -> bool.

Lemma appends_still {A} (m : M A) :
  (forall p, trace (snd (m p)) = trace p) -> appends ok m.
Proof. intros H p. exists []. by rewrite H, app_nil_r. Qed.

Lemma appends_ret {A} (a : A) : appends ok (ret a).
Proof. by apply appends_still. Qed.

Lemma appends_throw {A} e : appends ok (@throw A e).
Proof. by apply appends_still. Qed.

Lemma appends_await {A} (r : Result A) : appends ok (await r).
Proof. destruct r; by apply appends_still. Qed.

Lemma appends_this : appends ok this.
Proof. by apply appends_still. Qed.

Lemma appends_page : appends ok page.
Proof. by apply appends_still. Qed.

Lemma appends_update_mgr f : appends ok (update_mgr f).
Proof. by apply appends_still. Qed.

Lemma appends_update_ui f : appends ok (update_ui f).
Proof. by apply appends_still. Qed.

Lemma appends_update_tracks f : appends ok (update_tracks f).
Proof. by apply appends_still. Qed.

Lemma appends_new_stream ts : appends ok (new_stream ts).
Proof.
  apply appends_still. intros p. unfold new_stream.
  by destruct (alloc_tracks ts (tracks p)).
Qed.

Lemma appends_emit e : ok e = true -> appends ok (emit e).
Proof. intros H p. exists [e]. simpl. by rewrite H. Qed.

Lemma appends_bind {A B} (m : M A) (k : A -> M B) :
  appends ok m -> (forall a, appends ok (k a)) -> appends ok (bind m k).
Proof.
  intros Hm Hk p. unfold bind. destruct (Hm p) as (evs1 & Htr1 & Hok1).
  destruct (m p) as [[a|e] p1]; simpl in Htr1.
  - destruct (Hk a p1) as (evs2 & Htr2 & Hok2).
    exists (evs1 ++ evs2). rewrite Htr2, Htr1, <- app_assoc.
    split; [done|]. rewrite forallb_app. by rewrite Hok1, Hok2.
  - by exists evs1.
Qed.

Lemma appends_try_catch {A} (body : M A) (handler : JsError -> M A) :
  appends ok body -> (forall e, appends ok (handler e)) ->
  appends ok (try_catch body handler).
Proof.
  intros Hm Hk p. unfold try_catch. destruct (Hm p) as (evs1 & Htr1 & Hok1).
  destruct (body p) as [[a|e] p1]; simpl in Htr1.
  - by exists evs1.
  - destruct (Hk e p1) as (evs2 & Htr2 & Hok2).
    exists (evs1 ++ evs2). rewrite Htr2, Htr1, <- app_assoc.
    split; [done|]. rewrite forallb_app. by rewrite Hok1, Hok2.
Qed.

Lemma appends_forEach {A} (l : list A) (f : A -> M unit) :
  (forall x, appends ok (f x)) -> appends ok (forEach l f).
Proof.
  intros Hf. induction l as [|x l IH]; simpl.
  - apply appends_ret.
  - apply appends_bind; [apply Hf | intros _; apply IH].
Qed.

End Appends.

(** One step of a proof that a method only appends accepted events. *)
Ltac appends_step :=
  match goal with
  | |- appends _ (bind _ _) => apply appends_bind; [|intros ?]
  | |- appends _ (try_catch _ _) => apply appends_try_catch; [|intros ?]
  | |- appends _ (ret _) => apply appends_ret
  | |- appends _ (throw _) => apply appends_throw
  | |- appends _ (await _) => apply appends_await
  | |- appends _ this => apply appends_this
  | |- appends _ page => apply appends_page
  | |- appends _ (update_mgr _) => apply appends_update_mgr
  | |- appends _ (update_ui _) => apply appends_update_ui
  | |- appends _ (update_tracks _) => apply appends_update_tracks
  | |- appends _ (new_stream _) => apply appends_new_stream
  | |- appends _ (console_error _ _) => apply appends_emit; reflexivity
  | |- appends _ (emit _) => apply appends_emit; reflexivity
  | |- appends _ (forEach _ _) => apply appends_forEach; intros ?
  | |- appends _ (passive _) => apply appends_ret
  | |- appends _ (if ?b then _ else _) => destruct b
  | |- appends _ (match ?x with _ => _ end) => destruct x
  end.

Ltac appends_auto := repeat appends_step.

Section Delivered.

Variable platform : Platform.

Lemma appends_sendSignalingMessage type data :
  appends (delivers_only delivered_states) (sendSignalingMessage type data).
Proof. unfold sendSignalingMessage. appends_auto. Qed.

Lemma appends_createAnswer : appends (delivers_only delivered_states) (createAnswer platform).
Proof.
  unfold createAnswer, on_pc, pc_call.
  appends_auto; apply appends_sendSignalingMessage.
Qed.

Lemma appends_createOffer : appends (delivers_only delivered_states) (createOffer platform).
Proof.
  unfold createOffer, on_pc, pc_call.
  appends_auto; apply appends_sendSignalingMessage.
Qed.

Lemma appends_endCall : appends (delivers_only delivered_states) (endCall passive).
Proof.
  unfold endCall, updateCallState.
  appends_auto; apply appends_sendSignalingMessage.
Qed.

Lemma appends_handleSignalingMessage data :
  appends (delivers_only delivered_states) (handleSignalingMessage platform passive data).
Proof.
  unfold handleSignalingMessage, handleOffer, handleAnswer,
    handleIceCandidate, handleHangup, pc_call.
  appends_auto;
    first [apply appends_createAnswer | apply appends_endCall].
Qed.

Lemma appends_initializeCall id ty init :
  appends (delivers_only delivered_states) (initializeCall platform passive id ty init).
Proof.
  unfold initializeCall, getUserMedia, createPeerConnection, setupSignaling,
    updateCallState.
  appends_auto; apply appends_createOffer.
Qed.

Lemma appends_handle i : appends (delivers_only delivered_states) (handle platform i).
Proof.
  destruct i; simpl.
  - apply appends_initializeCall.
  - unfold socket_open_event. appends_auto.
  - apply appends_handleSignalingMessage.
  - unfold onicecandidate. appends_auto. apply appends_sendSignalingMessage.
  - unfold ontrack. appends_auto.
  - unfold connection_state_event, onconnectionstatechange, on_pc,
      updateCallState. appends_auto.
  - unfold toggleAudio, toggle. appends_auto.
  - unfold toggleVideo, toggle. appends_auto.
  - unfold startScreenShare, replace_video_track, on_pc. appends_auto.
  - unfold stopScreenShare, replace_video_track, on_pc. appends_auto.
  - apply appends_endCall.
Qed.

(** X13.  Whatever the browser does and whatever arrives, in any order,
    the subscriber is only ever handed one of [connecting], [connected],
    [disconnected], [ended] and [failed]. *)
Lemma run_inputs_delivers inputs : forall p,
  exists evs,
    trace (run_inputs platform inputs p) = trace p ++ evs /\
    forall s, EvStateChange s ∈ evs -> s ∈ delivered_states.
Proof.
  induction inputs as [|i inputs IH]; intros p; simpl.
  - exists []. split; [by rewrite app_nil_r|]. intros s Hs. by inversion Hs.
  - destruct (appends_handle i p) as (evs1 & Htr1 & Hok1).
    destruct (IH (snd (handle platform i p))) as (evs2 & Htr2 & Hok2).
    exists (evs1 ++ evs2). rewrite Htr2, Htr1, <- app_assoc. split; [done|].
    intros s [Hs|Hs]%elem_of_app; [|by apply Hok2].
    rewrite forallb_forall in Hok1.
    apply list_elem_of_In, Hok1 in Hs. unfold delivers_only in Hs.
    apply existsb_exists in Hs as (s' & Hin & Heq).
    apply String.eqb_eq in Heq as ->. by apply list_elem_of_In.
Qed.

End Delivered.

(** * Further properties of the call manager *)

(** ** Creating the peer connection *)

Lemma forEach_addTrack stream : forall p pc,
  peerConnection (mgr p) = Some pc ->
  forEach stream (fun track =>
    update_mgr (fun m => set_peerConnection (addTrack track <$> peerConnection m) m)) p
  = (Normal tt,
     {| mgr := set_peerConnection (Some (with_senders stream pc)) (mgr p);
        ui := ui p; tracks := tracks p; trace := trace p |}).
Proof.
  induction stream as [|track stream IH]; intros [m u h tr] pc Hpc; simpl in *.
  - destruct m; simpl in *. by subst.
  - unfold bind at 1. unfold update_mgr at 1. cbn [mgr ui tracks trace].
    rewrite (IH _ (addTrack track pc)).
    + by destruct m.
    + destruct m; simpl in *. by subst.
Qed.

Lemma with_senders_senders stream : forall pc,
  pc_senders (with_senders stream pc) = pc_senders pc ++ stream /\
  pc_config (with_senders stream pc) = pc_config pc /\
  pc_signalingState (with_senders stream pc) = pc_signalingState pc /\
  pc_connectionState (with_senders stream pc) = pc_connectionState pc.
Proof.
  induction stream as [|track stream IH]; intros pc; simpl.
  - by rewrite app_nil_r.
  - destruct (IH (addTrack track pc)) as (-> & -> & -> & ->). simpl.
    by rewrite <- app_assoc.
Qed.

(** X1.  [createPeerConnection] always installs a new connection,
    configured with the two STUN servers, in signaling state [stable]; it
    neither closes nor looks at the connection the field held before.
    With a local stream, the new connection's senders are exactly the
    stream's tracks, in the stream's order.  Without one the method throws
    a TypeError, and the new, track-less connection stays in the field. *)
Theorem createPeerConnection_attaches_local_tracks p :
  (forall stream,
     localStream (mgr p) = Some stream ->
     exists pc,
       createPeerConnection p
       = (Normal tt,
          {| mgr := set_peerConnection (Some pc) (mgr p); ui := ui p;
             tracks := tracks p; trace := trace p |}) /\
       pc_senders pc = stream /\
       pc_config pc = ["stun:stun.l.google.com:19302"; "stun:stun1.l.google.com:19302"] /\
       pc_signalingState pc = "stable") /\
  (localStream (mgr p) = None ->
   createPeerConnection p
   = (Throw (TypeError "Cannot read properties of null"),
      {| mgr := set_peerConnection (Some (newRTCPeerConnection iceServers)) (mgr p);
         ui := ui p; tracks := tracks p; trace := trace p |})).
Proof.
  destruct p as [m u h tr]. split.
  - intros stream Hls. exists (with_senders stream (newRTCPeerConnection iceServers)).
    split.
    + unfold createPeerConnection. unfold bind at 1. unfold update_mgr at 1.
      unfold bind at 1. unfold this at 1. cbn [mgr ui tracks trace].
      replace (localStream (set_peerConnection _ m)) with (Some stream)
        by (by destruct m).
      rewrite (forEach_addTrack stream _ (newRTCPeerConnection iceServers))
        by (by destruct m).
      by destruct m.
    + by destruct (with_senders_senders stream (newRTCPeerConnection iceServers))
        as (-> & -> & -> & _).
  - intros Hls. destruct m; simpl in *. subst. reflexivity.
Qed.

Lemma createPeerConnection_attaches_local_tracks_witness :
  exists pc,
    createPeerConnection page_in_call
    = (Normal tt,
       {| mgr := set_peerConnection (Some pc) (mgr page_in_call);
          ui := ui page_in_call; tracks := tracks page_in_call;
          trace := trace page_in_call |}) /\
    pc_senders pc = [0; 1] /\
    pc_config pc = ["stun:stun.l.google.com:19302"; "stun:stun1.l.google.com:19302"] /\
    pc_signalingState pc = "stable".
Proof.
  apply (proj1 (createPeerConnection_attaches_local_tracks page_in_call) [0; 1]).
  vm_compute. reflexivity.
Defined.

(** ** The signaling envelope *)

Lemma envelope_shape type data :
  type <> "type" ->
  envelope type data
  = JObj (("type", JStr type)
          :: match data with
             | JUndefined => []
             | _ => [(type, JSON_stringify data)]
             end).
Proof.
  intros Hne. unfold envelope. cbn [obj_set].
  destruct (String.eqb_spec type "type") as [->|_]; [done|].
  by destruct data.
Qed.

Lemma envelope_reads type data :
  type <> "type" ->
  get_prop "type" (JSON_parse (envelope type data)) = Ok (JStr type) /\
  (data <> JUndefined ->
   get_prop type (JSON_parse (envelope type data)) = Ok (JSON_stringify data)) /\
  (data = JUndefined ->
   get_prop type (JSON_parse (envelope type data)) = Ok JUndefined).
Proof.
  intros Hne. rewrite envelope_shape by done. unfold JSON_parse.
  assert (Hty : String.eqb type "type" = false) by (by apply String.eqb_neq).
  split; [reflexivity|]. split.
  - intros Hdata. cbn [get_prop obj_lookup]. rewrite Hty.
    destruct data; try done; cbn [obj_lookup]; by rewrite String.eqb_refl.
  - intros ->. cbn [get_prop obj_lookup]. by rewrite Hty.
Qed.

(** The decimal text of a number starts with a digit. *)
Lemma pretty_N_go_first_digit (x : N) : forall s,
  (0 < x)%N ->
  exists d rest, (d < 10)%N /\ pretty_N_go x s = String (pretty_N_char d) rest.
Proof.
  induction (N.lt_wf_0 x) as [x _ IH]; intros s Hx.
  rewrite pretty_N_go_step by done.
  destruct (decide (x `div` 10 = 0)%N) as [Hq|Hq].
  - rewrite Hq, pretty_N_go_0. eexists _, _. split; [|done].
    by apply N.mod_lt.
  - apply IH; [apply N.div_lt; lia | by apply N.neq_0_lt_0].
Qed.

Lemma pretty_N_first_digit (n : N) :
  exists d rest, (d < 10)%N /\ pretty n = String (pretty_N_char d) rest.
Proof.
  unfold pretty, pretty_N. destruct (decide (n = 0%N)) as [->|Hne].
  - exists 0%N, "". split; [lia|done].
  - apply pretty_N_go_first_digit. by apply N.neq_0_lt_0.
Qed.

(** A word that does not start with a digit is not an array index. *)
Lemma not_an_index (type : string) :
  match type with
  | String c _ => forallb (fun d => negb (Ascii.eqb c (pretty_N_char d)))
                          [0; 1; 2; 3; 4; 5; 6; 7; 8; 9]%N = true
  | EmptyString => True
  end ->
  forall n : N, type <> pretty n.
Proof.
  intros Hc n Heq. destruct (pretty_N_first_digit n) as (d & rest & Hlt & Hd).
  rewrite Hd in Heq. subst type.
  rewrite forallb_forall in Hc. specialize (Hc d).
  rewrite Ascii.eqb_refl in Hc.
  assert (In d [0; 1; 2; 3; 4; 5; 6; 7; 8; 9]%N) as Hin.
  { assert (d = 0 \/ d = 1 \/ d = 2 \/ d = 3 \/ d = 4 \/ d = 5 \/ d = 6
            \/ d = 7 \/ d = 8 \/ d = 9)%N as Hcases by lia.
    destruct Hcases as [->|[->|[->|[->|[->|[->|[->|[->|[->| ->]]]]]]]]];
      simpl; tauto. }
  specialize (Hc Hin). discriminate.
Qed.

Lemma not_inherited (type : string) :
  includes Object_prototype type = false -> type ∉ Object_prototype.
Proof.
  intros Hno Hin. apply list_elem_of_In in Hin.
  assert (includes Object_prototype type = true) as Hyes; [|congruence].
  apply existsb_exists. exists type. split; [done|apply String.eqb_refl].
Qed.

(** X2.  What [sendSignalingMessage(type, data)] puts on an open socket
    can be read back by the peer.  For every message type that is not a
    name objects inherit from [Object.prototype] and not an array index
    (JavaScript lists such keys first): the document sent is
    [{ type, [type]: data }] in that order; parsed, [data.type] is the type
    and, for every type other than the word [type] and every payload other
    than undefined, [data[type]] is the serialised payload.  An undefined
    payload is dropped by [JSON.stringify] (the peer reads undefined), and
    for the type [type] the computed key overwrites the [type] property
    itself.  The four types the manager sends are among these. *)
Theorem envelope_round_trip type data :
  type ∉ Object_prototype ->
  (forall n : N, type <> pretty n) ->
  (forall url p,
     sendSignalingMessage type data (with_open_socket url p)
     = (Normal tt, with_events [EvSend (envelope type data)] (with_open_socket url p))) /\
  (type <> "type" ->
   get_prop "type" (JSON_parse (envelope type data)) = Ok (JStr type) /\
   (data <> JUndefined ->
    get_prop type (JSON_parse (envelope type data)) = Ok (JSON_stringify data)) /\
   (data = JUndefined ->
    get_prop type (JSON_parse (envelope type data)) = Ok JUndefined)) /\
  (type = "type" ->
   envelope type data = JSON_stringify (JObj [("type", data)])).
Proof.
  intros _ _. split; [|split].
  - intros url p. reflexivity.
  - apply envelope_reads.
  - intros ->. reflexivity.
Qed.

Lemma envelope_round_trip_witness :
  Forall (fun type => (type ∉ Object_prototype) /\ (forall n : N, type <> pretty n))
         ["offer"; "answer"; "ice_candidate"; "hangup"] /\
  get_prop "type" (JSON_parse (envelope "answer" remote_answer)) = Ok (JStr "answer") /\
  get_prop "answer" (JSON_parse (envelope "answer" remote_answer)) = Ok remote_answer.
Proof.
  assert (Forall (fun type => (type ∉ Object_prototype) /\
                              (forall n : N, type <> pretty n))
                 ["offer"; "answer"; "ice_candidate"; "hangup"]) as Hsent.
  { repeat constructor;
      solve [ apply not_inherited; reflexivity
            | apply not_an_index; reflexivity ]. }
  split; [exact Hsent|].
  destruct (envelope_round_trip "answer" remote_answer) as (_ & Hread & _).
  - apply not_inherited. reflexivity.
  - apply not_an_index. reflexivity.
  - destruct Hread as (Hty & Hdata & _); [done|].
    split; [exact Hty|]. by apply Hdata.
Defined.

(** ** Dispatching incoming messages *)

Lemma handleOffer_returns platform offer p :
  fst (handleOffer platform offer p) = Normal tt.
Proof.
  unfold handleOffer, try_catch.
  match goal with |- fst (match ?x with _ => _ end) = _ =>
    by destruct x as [[[]|e] p'] end.
Qed.

Lemma handleAnswer_returns platform answer p :
  fst (handleAnswer platform answer p) = Normal tt.
Proof.
  unfold handleAnswer, try_catch.
  match goal with |- fst (match ?x with _ => _ end) = _ =>
    by destruct x as [[[]|e] p'] end.
Qed.

(** X3.  [handleSignalingMessage] never throws, whatever the message, the
    browser and the subscriber do: every error below it ends in the
    console.  A message that is null or undefined is logged as a
    TypeError; a message whose [type] is not a string, or is a string
    other than [offer], [answer], [ice_candidate] and [hangup], is ignored
    without any effect. *)
Theorem handleSignalingMessage_never_throws platform subscriber data p :
  fst (handleSignalingMessage platform subscriber data p) = Normal tt /\
  (forall e, get_prop "type" data = Err e ->
     handleSignalingMessage platform subscriber data p
     = (Normal tt,
        with_events [EvConsoleError "Error handling signaling message:" e] p)) /\
  (forall ty, get_prop "type" data = Ok ty ->
     (forall t, ty = JStr t -> t ∉ ["offer"; "answer"; "ice_candidate"; "hangup"]) ->
     handleSignalingMessage platform subscriber data p = (Normal tt, p)).
Proof.
  split; [|split].
  - unfold handleSignalingMessage, try_catch.
    match goal with |- fst (match ?x with _ => _ end) = _ =>
      by destruct x as [[[]|e] p'] end.
  - intros e He. unfold handleSignalingMessage, try_catch, bind. by rewrite He.
  - intros ty Hty Hother. unfold handleSignalingMessage, try_catch, bind.
    rewrite Hty. cbn [await ret].
    destruct ty as [| | | |t|]; try reflexivity.
    specialize (Hother t eq_refl).
    rewrite !elem_of_cons, elem_of_nil in Hother.
    destruct (String.eqb_spec t "offer"); [tauto|].
    destruct (String.eqb_spec t "answer"); [tauto|].
    destruct (String.eqb_spec t "ice_candidate"); [tauto|].
    destruct (String.eqb_spec t "hangup"); [tauto|].
    reflexivity.
Qed.

Lemma handleSignalingMessage_never_throws_witness :
  handleSignalingMessage browser passive JNull page_in_call
  = (Normal tt,
     with_events [EvConsoleError "Error handling signaling message:"
                    (TypeError "Cannot read properties of null")] page_in_call) /\
  handleSignalingMessage browser passive
    (JObj [("type", JStr "ping")]) page_in_call = (Normal tt, page_in_call) /\
  handleSignalingMessage browser passive
    (JObj [("kind", JStr "offer")]) page_in_call = (Normal tt, page_in_call).
Proof.
  destruct (handleSignalingMessage_never_throws browser passive JNull page_in_call)
    as (_ & Hnull & _).
  destruct (handleSignalingMessage_never_throws browser passive
              (JObj [("type", JStr "ping")]) page_in_call) as (_ & _ & Hping).
  destruct (handleSignalingMessage_never_throws browser passive
              (JObj [("kind", JStr "offer")]) page_in_call) as (_ & _ & Hkind).
  split; [|split].
  - by apply Hnull.
  - apply (Hping (JStr "ping")); [done|].
    intros t [= <-]. rewrite !elem_of_cons, elem_of_nil.
    intros [?|[?|[?|[?|[]]]]]; discriminate.
  - apply (Hkind JUndefined); [done|]. intros t Ht. discriminate.
Defined.

(** X4.  Offers and answers do reach their handlers: the message that
    [sendSignalingMessage('offer', payload)] produces makes the peer run
    [handleOffer] on the serialised payload, and likewise for answers,
    with nothing added by the dispatcher. *)
Theorem offer_and_answer_messages_dispatched platform subscriber payload p :
  payload <> JUndefined ->
  onmessage platform subscriber (envelope "offer" payload) p
  = handleOffer platform (JSON_stringify payload) p /\
  onmessage platform subscriber (envelope "answer" payload) p
  = handleAnswer platform (JSON_stringify payload) p.
Proof.
  intros Hdata.
  destruct (envelope_reads "offer" payload) as (Hty1 & Hp1 & _); [done|].
  destruct (envelope_reads "answer" payload) as (Hty2 & Hp2 & _); [done|].
  specialize (Hp1 Hdata). specialize (Hp2 Hdata).
  unfold JSON_parse in *. split.
  - unfold onmessage, JSON_parse, handleSignalingMessage, try_catch, bind.
    rewrite Hty1. cbn [await ret String.eqb Ascii.eqb Bool.eqb].
    rewrite Hp1. cbn [await ret].
    pose proof (handleOffer_returns platform (JSON_stringify payload) p) as Hret.
    destruct (handleOffer platform (JSON_stringify payload) p) as [[[]|e] p'];
      [reflexivity | discriminate].
  - unfold onmessage, JSON_parse, handleSignalingMessage, try_catch, bind.
    rewrite Hty2. cbn [await ret String.eqb Ascii.eqb Bool.eqb].
    rewrite Hp2. cbn [await ret].
    pose proof (handleAnswer_returns platform (JSON_stringify payload) p) as Hret.
    destruct (handleAnswer platform (JSON_stringify payload) p) as [[[]|e] p'];
      [reflexivity | discriminate].
Qed.

(** ** What the methods keep *)

Section Keeps.

Context (R : Page -> Page -> Prop) `{!PreOrder R}.

Lemma keeps_still {A} (m : M A) : (forall p, snd (m p) = p) -> keeps R m.
Proof using Type*. intros H p. by rewrite H. Qed.

Lemma keeps_ret {A} (a : A) : keeps R (ret a).
Proof using Type*. by apply keeps_still. Qed.

Lemma keeps_throw {A} e : keeps R (@throw A e).
Proof using Type*. by apply keeps_still. Qed.

Lemma keeps_await {A} (r : Result A) : keeps R (await r).
Proof using Type*. destruct r; by apply keeps_still. Qed.

Lemma keeps_this : keeps R this.
Proof using Type*. by apply keeps_still. Qed.

Lemma keeps_page : keeps R page.
Proof using Type*. by apply keeps_still. Qed.

Lemma keeps_bind {A B} (m : M A) (k : A -> M B) :
  keeps R m -> (forall a, keeps R (k a)) -> keeps R (bind m k).
Proof using Type*.
  intros Hm Hk p. unfold bind. specialize (Hm p).
  destruct (m p) as [[a|e] p1]; simpl in *; [|done].
  by etrans; [|apply Hk].
Qed.

Lemma keeps_try_catch {A} (body : M A) (handler : JsError -> M A) :
  keeps R body -> (forall e, keeps R (handler e)) -> keeps R (try_catch body handler).
Proof using Type*.
  intros Hm Hk p. unfold try_catch. specialize (Hm p).
  destruct (body p) as [[a|e] p1]; simpl in *; [done|].
  by etrans; [|apply Hk].
Qed.

Lemma keeps_forEach {A} (l : list A) (f : A -> M unit) :
  (forall x, keeps R (f x)) -> keeps R (forEach l f).
Proof using Type*.
  intros Hf. induction l as [|x l IH]; simpl.
  - apply keeps_ret.
  - apply keeps_bind; [apply Hf | intros _; apply IH].
Qed.

End Keeps.

(** One structural step of a proof of [keeps]; what touches the page is
    left to the relation at hand. *)
Ltac keeps_class := try match goal with |- PreOrder _ => apply _ end.

Ltac keeps_step :=
  match goal with
  | |- keeps _ (bind _ _) => apply keeps_bind; keeps_class; [|intros ?]
  | |- keeps _ (try_catch _ _) => apply keeps_try_catch; keeps_class; [|intros ?]
  | |- keeps _ (ret _) => apply keeps_ret; keeps_class
  | |- keeps _ (throw _) => apply keeps_throw; keeps_class
  | |- keeps _ (await _) => apply keeps_await; keeps_class
  | |- keeps _ this => apply keeps_this; keeps_class
  | |- keeps _ page => apply keeps_page; keeps_class
  | |- keeps _ (passive _) => apply keeps_ret; keeps_class
  | |- keeps _ (forEach _ _) => apply keeps_forEach; keeps_class; intros ?
  | |- keeps _ (if ?b then _ else _) => destruct b
  | |- keeps _ (match ?x with _ => _ end) => destruct x
  end.

Lemma state_changes_app tr1 tr2 :
  state_changes (tr1 ++ tr2) = state_changes tr1 ++ state_changes tr2.
Proof.
  induction tr1 as [|e tr1 IH]; [done|]. destruct e; simpl; by rewrite ?IH.
Qed.

#[global] Instance quiet_preorder : PreOrder quiet.
Proof.
  split.
  - intros p. split; [done|]. exists []. by rewrite app_nil_r.
  - intros p1 p2 p3 [H1 (e1 & T1 & S1)] [H2 (e2 & T2 & S2)]. split; [congruence|].
    exists (e1 ++ e2). rewrite T2, T1, <- app_assoc. split; [done|].
    by rewrite state_changes_app, S1, S2.
Qed.

Lemma quiet_emit e : state_changes [e] = [] -> keeps quiet (emit e).
Proof. intros H p. split; [done|]. by exists [e]. Qed.

Lemma quiet_update_mgr f :
  (forall m, onCallStateChange (f m) = onCallStateChange m) ->
  keeps quiet (update_mgr f).
Proof. intros H p. split; [apply H|]. exists []. by rewrite app_nil_r. Qed.

Lemma quiet_new_stream ts : keeps quiet (new_stream ts).
Proof.
  intros p. unfold new_stream. destruct (alloc_tracks ts (tracks p)).
  split; [done|]. exists []. by rewrite app_nil_r.
Qed.

Ltac quiet_step :=
  first
    [ keeps_step
    | apply quiet_new_stream
    | apply quiet_emit; reflexivity
    | apply quiet_update_mgr; intros []; reflexivity ].

Lemma quiet_sendSignalingMessage type data :
  keeps quiet (sendSignalingMessage type data).
Proof. unfold sendSignalingMessage. repeat quiet_step. Qed.

Lemma quiet_createOffer platform : keeps quiet (createOffer platform).
Proof.
  unfold createOffer, on_pc, pc_call, console_error.
  repeat quiet_step; apply quiet_sendSignalingMessage.
Qed.

Lemma quiet_createAnswer platform : keeps quiet (createAnswer platform).
Proof.
  unfold createAnswer, on_pc, pc_call, console_error.
  repeat quiet_step; apply quiet_sendSignalingMessage.
Qed.

(** Getting media, creating the connection and the socket and sending the
    offer notify nothing. *)
Lemma quiet_setup_steps platform init : keeps quiet (setup_steps platform init).
Proof.
  unfold setup_steps, getUserMedia, createPeerConnection, setupSignaling,
    console_error.
  repeat quiet_step; apply quiet_createOffer.
Qed.

Lemma initializeCall_body platform subscriber (initiator : bool) q :
  (getUserMedia platform ;;
   createPeerConnection ;;
   setupSignaling platform ;;
   (if initiator then createOffer platform else ret tt) ;;
   updateCallState subscriber "connecting") q
  = (setup_steps platform initiator ;; updateCallState subscriber "connecting") q.
Proof.
  unfold setup_steps, bind.
  destruct (getUserMedia platform q) as [[[]|e] q1]; [|done].
  destruct (createPeerConnection q1) as [[[]|e] q2]; [|done].
  destruct (setupSignaling platform q2) as [[[]|e] q3]; [|done].
  by destruct ((if initiator then createOffer platform else ret tt) q3) as [[[]|e] q4].
Qed.

(** X5.  [initializeCall] notifies exactly one state and its outcome says
    which: if it returns, the one notification is ['connecting'] and it is
    the last thing that happened; if it throws, the one notification is
    ['failed'], preceded by the console line for the error it rethrows.
    (With no subscriber installed there is no notification at all.)  This
    holds for every browser behaviour. *)
Theorem initializeCall_notifies_once platform id ty init p :
  exists evs,
    trace (snd (initializeCall platform passive id ty init p)) = trace p ++ evs /\
    match fst (initializeCall platform passive id ty init p) with
    | Normal _ =>
        exists evs0,
          evs = evs0 ++ (if onCallStateChange (mgr p)
                         then [EvStateChange "connecting"] else []) /\
          state_changes evs0 = []
    | Throw e =>
        exists evs0,
          evs = evs0 ++ [EvConsoleError "Failed to initialize call:" e]
                     ++ (if onCallStateChange (mgr p)
                         then [EvStateChange "failed"] else []) /\
          state_changes evs0 = []
    end.
Proof.
  set (p1 := {| mgr := set_session id ty init (mgr p); ui := ui p;
                tracks := tracks p; trace := trace p |}).
  assert (Hrun : initializeCall platform passive id ty init p
                 = match setup_steps platform init p1 with
                   | (Normal _, p2) => updateCallState passive "connecting" p2
                   | (Throw e, p2) =>
                       (console_error "Failed to initialize call:" e ;;
                        updateCallState passive "failed" ;; throw e) p2
                   end).
  { unfold initializeCall. unfold bind at 1. unfold update_mgr at 1.
    unfold try_catch. rewrite initializeCall_body. fold p1. unfold bind at 1.
    destruct (setup_steps platform init p1) as [[[]|e] p2]; [|reflexivity].
    by rewrite updateCallState_passive. }
  rewrite Hrun. clear Hrun.
  destruct (quiet_setup_steps platform init p1) as [Hsub (evs0 & Htr & Hquiet)].
  assert (Hsub1 : onCallStateChange (mgr p1) = onCallStateChange (mgr p))
    by (by destruct p as [[] ? ? ?]).
  rewrite Hsub1 in Hsub. change (trace p1) with (trace p) in Htr.
  destruct (setup_steps platform init p1) as [[[]|e] p2]; cbn [snd] in Hsub, Htr.
  - rewrite updateCallState_passive. cbn [fst snd trace].
    rewrite Hsub, Htr.
    eexists. split; [by rewrite <- app_assoc|]. by exists evs0.
  - assert (Hfail : (console_error "Failed to initialize call:" e ;;
                     updateCallState passive "failed" ;; @throw unit e) p2
                    = (Throw e,
                       with_events
                         ([EvConsoleError "Failed to initialize call:" e]
                          ++ (if onCallStateChange (mgr p2)
                              then [EvStateChange "failed"] else [])) p2)).
    { unfold bind at 1. unfold console_error at 1, emit at 1.
      unfold bind at 1. rewrite updateCallState_passive.
      unfold with_events, throw. cbn [mgr ui tracks trace].
      by rewrite <- app_assoc. }
    rewrite Hfail. cbn [fst snd trace with_events]. rewrite Hsub, Htr.
    eexists. split; [by rewrite <- !app_assoc|]. by exists evs0.
Qed.

Lemma offer_and_answer_messages_dispatched_witness :
  onmessage browser passive (envelope "answer" remote_answer) page_in_call
  = handleAnswer browser (JSON_stringify remote_answer) page_in_call.
Proof.
  apply (offer_and_answer_messages_dispatched browser passive remote_answer
           page_in_call).
  discriminate.
Defined.

(** ** Who releases resources *)

Lemma appends_bind_ret ok {A B} (a : A) (k : A -> M B) :
  appends ok (k a) -> appends ok (bind (ret a) k).
Proof. intros H p. apply H. Qed.

Lemma appends_bind_throw ok {A B} e (k : A -> M B) :
  appends ok (bind (throw e) k).
Proof. intros p. exists []. by rewrite app_nil_r. Qed.

Lemma appends_hold_handleSignalingMessage platform data :
  is_hangup_input (InMessage data) = false ->
  appends (fun e => negb (is_release e))
          (handleSignalingMessage platform passive data).
Proof.
  unfold is_hangup_input, JSON_parse. intros Hnot.
  unfold handleSignalingMessage.
  apply appends_try_catch; [|intros ?; appends_auto].
  destruct (get_prop "type" data) as [ty|e]; [|apply appends_bind_throw].
  apply appends_bind_ret.
  destruct ty as [| | | |t|]; try solve [appends_auto].
  rewrite Hnot.
  unfold handleOffer, handleAnswer, handleIceCandidate, createAnswer, pc_call,
    on_pc, sendSignalingMessage.
  appends_auto.
Qed.

(** X6.  Nothing but a hang-up releases anything.  For every input other
    than [endCall] and the peer's hangup message, and whatever the browser
    does, the manager closes no peer connection, closes no socket and
    stops no track.  In particular a connection that fails, a call started
    over a live one and a failed [initializeCall] all leave the camera,
    the microphone and the old connection as they are. *)
Theorem only_hangup_releases platform i p :
  is_hangup_input i = false ->
  exists evs,
    trace (snd (handle platform i p)) = trace p ++ evs /\
    count is_pc_close evs = 0 /\
    count is_socket_close evs = 0 /\
    forall id, count (is_track_stop id) evs = 0.
Proof.
  intros Hnot.
  assert (Happ : appends (fun e => negb (is_release e)) (handle platform i)).
  { destruct i; simpl; try discriminate.
    - unfold initializeCall, getUserMedia, createPeerConnection, setupSignaling,
        updateCallState, createOffer, pc_call, on_pc, sendSignalingMessage.
      appends_auto.
    - unfold socket_open_event. appends_auto.
    - by apply appends_hold_handleSignalingMessage.
    - unfold onicecandidate, sendSignalingMessage. appends_auto.
    - unfold ontrack. appends_auto.
    - unfold connection_state_event, onconnectionstatechange, on_pc,
        updateCallState. appends_auto.
    - unfold toggleAudio, toggle. appends_auto.
    - unfold toggleVideo, toggle. appends_auto.
    - unfold startScreenShare, replace_video_track, on_pc. appends_auto.
    - unfold stopScreenShare, replace_video_track, on_pc. appends_auto. }
  destruct (Happ p) as (evs & Htr & Hok). exists evs. split; [done|].
  clear Htr. unfold count.
  induction evs as [|e evs IH]; [done|].
  simpl in Hok. apply andb_prop in Hok as [He Hok].
  destruct (IH Hok) as (IH1 & IH2 & IH3).
  destruct e; simpl in *; try discriminate; repeat split; try done.
Qed.

Lemma only_hangup_releases_witness :
  exists evs,
    trace (snd (handle browser (InConnectionState "failed") page_in_call))
    = trace page_in_call ++ evs /\
    count is_pc_close evs = 0 /\
    count is_socket_close evs = 0 /\
    forall id, count (is_track_stop id) evs = 0.
Proof.
  apply (only_hangup_releases browser (InConnectionState "failed") page_in_call).
  reflexivity.
Defined.

(** ** The remote stream across calls *)

#[global] Instance same_remote_preorder : PreOrder same_remote.
Proof. split; [by intros p | intros p1 p2 p3 H1 H2; unfold same_remote in *; congruence]. Qed.







(** ** Track objects over a whole run *)

#[global] Instance tracks_persist_preorder : PreOrder tracks_persist.
Proof.
  split.
  - intros p id t H. by exists t.
  - intros p1 p2 p3 H12 H23 id t H.
    destruct (H12 _ _ H) as (t2 & H2 & Hk2 & Hs2).
    destruct (H23 _ _ H2) as (t3 & H3 & Hk3 & Hs3).
    exists t3. split; [done|]. split; [congruence|tauto].
Qed.

Lemma alloc_tracks_lookup ts : forall (h : TrackHeap) id t,
  h !! id = Some t -> (alloc_tracks ts h).2 !! id = Some t.
Proof.
  induction ts as [|t0 ts IH]; intros h id t H; [done|].
  simpl. unfold alloc_track.
  destruct (alloc_tracks ts (<[fresh (dom h) := t0]> h)) as [ids h2] eqn:E.
  simpl. change h2 with ((ids, h2).2). rewrite <- E. apply IH.
  rewrite lookup_insert_ne; [done|].
  intros Heq. pose proof (is_fresh (dom h)) as Hfresh.
  apply Hfresh. rewrite Heq. apply elem_of_dom. by exists t.
Qed.

Lemma tracks_persist_alter f id0 :
  (forall t, kind (f t) = kind t /\ (stopped t = true -> stopped (f t) = true)) ->
  keeps tracks_persist (update_tracks (alter f id0)).
Proof.
  intros Hf p id t H. simpl. destruct (decide (id0 = id)) as [->|Hne].
  - exists (f t). rewrite lookup_alter_eq, H. split; [done|]. apply Hf.
  - exists t. by rewrite lookup_alter_ne.
Qed.

Lemma tracks_persist_new_stream ts : keeps tracks_persist (new_stream ts).
Proof.
  intros p id t H. unfold new_stream.
  pose proof (alloc_tracks_lookup ts (tracks p) id t H) as Hl.
  destruct (alloc_tracks ts (tracks p)) as [ids h2]. simpl in *. by exists t.
Qed.

Ltac tracks_persist_step :=
  first
    [ keeps_step
    | apply tracks_persist_new_stream
    | apply tracks_persist_alter; intros []; by split
    | intros ? ? ? ?; eexists; split; [eassumption | by split] ].

Lemma tracks_persist_handle platform i : keeps tracks_persist (handle platform i).
Proof.
  destruct i; simpl.
  - unfold initializeCall, getUserMedia, createPeerConnection, setupSignaling,
      updateCallState, createOffer, pc_call, on_pc, sendSignalingMessage,
      console_error.
    repeat tracks_persist_step.
  - unfold socket_open_event. repeat tracks_persist_step.
  - unfold onmessage, handleSignalingMessage, handleOffer, handleAnswer,
      handleIceCandidate, handleHangup, endCall, createAnswer, updateCallState,
      pc_call, on_pc, sendSignalingMessage, console_error.
    repeat tracks_persist_step.
  - unfold onicecandidate, sendSignalingMessage. repeat tracks_persist_step.
  - unfold ontrack. repeat tracks_persist_step.
  - unfold connection_state_event, onconnectionstatechange, on_pc,
      updateCallState. repeat tracks_persist_step.
  - unfold toggleAudio, toggle. repeat tracks_persist_step.
  - unfold toggleVideo, toggle. repeat tracks_persist_step.
  - unfold startScreenShare, replace_video_track, on_pc, console_error.
    repeat tracks_persist_step.
  - unfold stopScreenShare, replace_video_track, on_pc, console_error.
    repeat tracks_persist_step.
  - unfold endCall, updateCallState, sendSignalingMessage.
    repeat tracks_persist_step.
Qed.

(** X8.  Track objects are never lost, never change kind and never come
    back to life: over every sequence of inputs and every browser
    behaviour, a track that exists still exists afterwards with the same
    kind, and a track that was stopped is still stopped.  A microphone
    stopped by a hang-up stays off whatever is started next; a new call
    works on new track objects. *)
Theorem tracks_persist_over_runs platform inputs : forall p id t,
  tracks p !! id = Some t ->
  exists t',
    tracks (run_inputs platform inputs p) !! id = Some t' /\
    kind t' = kind t /\
    (stopped t = true -> stopped t' = true).
Proof.
  induction inputs as [|i inputs IH]; intros p id t H; simpl.
  - by exists t.
  - destruct (tracks_persist_handle platform i p id t H) as (t1 & H1 & Hk1 & Hs1).
    destruct (IH _ _ _ H1) as (t2 & H2 & Hk2 & Hs2).
    exists t2. split; [done|]. split; [congruence|tauto].
Qed.

Lemma tracks_persist_over_runs_witness :
  exists t',
    tracks (run_inputs browser
              [InInitializeCall "sess-2" "voice" true; InToggleAudio]
              (snd (endCall passive page_in_call))) !! 0 = Some t' /\
    kind t' = "audio" /\
    (true = true -> stopped t' = true).
Proof.
  apply (tracks_persist_over_runs browser
           [InInitializeCall "sess-2" "voice" true; InToggleAudio]
           (snd (endCall passive page_in_call)) 0 (mkTrack "audio" true true)).
  vm_compute. reflexivity.
Defined.

(** ** Mute and camera together *)

Lemma toggle_some k h stream a rest m u tr :
  localStream m = Some stream ->
  tracks_of_kind k h stream = a :: rest ->
  toggle k {| mgr := m; ui := u; tracks := h; trace := tr |}
  = (Normal (default false (enabled <$> alter flip_enabled a h !! a)),
     {| mgr := m; ui := u; tracks := alter flip_enabled a h; trace := tr |}).
Proof.
  intros Hls Hk. destruct m as [pc ls rs sock sid init ty ocs ors ols].
  simpl in Hls. subst ls. unfold toggle. run. by rewrite Hk.
Qed.

Lemma toggle_none k h stream m u tr :
  localStream m = Some stream ->
  tracks_of_kind k h stream = [] ->
  toggle k {| mgr := m; ui := u; tracks := h; trace := tr |}
  = (Normal false, {| mgr := m; ui := u; tracks := h; trace := tr |}).
Proof.
  intros Hls Hk. destruct m as [pc ls rs sock sid init ty ocs ors ols].
  simpl in Hls. subst ls. unfold toggle. run. by rewrite Hk.
Qed.

(** X9.  Muting and switching the camera off are independent: the two
    toggles commute, and the value each returns is the same whether or not
    the other was toggled in between. *)
Theorem toggles_commute p :
  snd ((toggleAudio ;; toggleVideo) p) = snd ((toggleVideo ;; toggleAudio) p) /\
  fst ((toggleVideo ;; toggleAudio) p) = fst (toggleAudio p) /\
  fst ((toggleAudio ;; toggleVideo) p) = fst (toggleVideo p).
Proof.
  destruct p as [m u h tr]. unfold toggleAudio, toggleVideo.
  destruct (localStream m) as [stream|] eqn:Hls.
  2:{ destruct m as [pc ls rs sock sid init ty ocs ors ols]. simpl in Hls.
      by subst ls. }
  destruct (tracks_of_kind "audio" h stream) as [|a ra] eqn:Ha;
    destruct (tracks_of_kind "video" h stream) as [|v rv] eqn:Hv;
    unfold bind;
    rewrite ?(toggle_none "audio" h stream) by done;
    rewrite ?(toggle_none "video" h stream) by done;
    rewrite ?(toggle_some "audio" h stream a ra) by done;
    rewrite ?(toggle_some "video" h stream v rv) by done.
  - by rewrite !(toggle_none _ h stream).
  - rewrite (toggle_none "audio" (alter flip_enabled v h) stream)
      by (by rewrite ?tracks_of_kind_alter_flip).
    done.
  - rewrite (toggle_none "video" (alter flip_enabled a h) stream)
      by (by rewrite ?tracks_of_kind_alter_flip).
    done.
  - destruct (tracks_of_kind_head _ _ _ _ _ Ha) as (_ & ta & Hta & Hka).
    destruct (tracks_of_kind_head _ _ _ _ _ Hv) as (_ & tv & Htv & Hkv).
    assert (Hne : a <> v) by (intros ->; congruence).
    rewrite (toggle_some "video" (alter flip_enabled a h) stream v rv)
      by (by rewrite ?tracks_of_kind_alter_flip).
    rewrite (toggle_some "audio" (alter flip_enabled v h) stream a ra)
      by (by rewrite ?tracks_of_kind_alter_flip).
    cbn [fst snd].
    rewrite (alter_alter_ne flip_enabled flip_enabled h v a) by done.
    repeat split.
    + rewrite !lookup_alter_eq. by rewrite lookup_alter_ne.
    + rewrite lookup_alter_ne by done. by rewrite !lookup_alter_eq.
Qed.

(** ** Screen sharing and hang-up *)

Lemma alloc_tracks_fresh ts : forall (h : TrackHeap) id,
  id ∈ (alloc_tracks ts h).1 -> h !! id = None.
Proof.
  induction ts as [|t0 ts IH]; intros h id Hin; simpl in *.
  - by apply elem_of_nil in Hin.
  - unfold alloc_track in Hin.
    destruct (alloc_tracks ts (<[fresh (dom h) := t0]> h)) as [ids h2] eqn:E.
    simpl in Hin. apply elem_of_cons in Hin as [->|Hin].
    + apply not_elem_of_dom, is_fresh.
    + assert (Hnone : (<[fresh (dom h) := t0]> h) !! id = None).
      { apply IH. by rewrite E. }
      apply lookup_insert_None in Hnone. tauto.
Qed.

#[global] Instance stream_and_track_kept_preorder id :
  PreOrder (stream_and_track_kept id).
Proof.
  split.
  - by intros p.
  - intros p1 p2 p3 [H1 T1] [H2 T2]. split; [congruence|]. intros t H. eauto.
Qed.

Lemma stream_and_track_kept_new_stream id ts :
  keeps (stream_and_track_kept id) (new_stream ts).
Proof.
  intros p. unfold new_stream.
  pose proof (alloc_tracks_lookup ts (tracks p) id) as Hl.
  destruct (alloc_tracks ts (tracks p)) as [ids h2]. by split.
Qed.

Lemma stream_and_track_kept_stopScreenShare platform id :
  keeps (stream_and_track_kept id) (stopScreenShare platform).
Proof.
  unfold stopScreenShare, replace_video_track, on_pc, console_error.
  repeat first
    [ keeps_step
    | apply stream_and_track_kept_new_stream
    | intros p; split; [by destruct p as [[] ? ? ?] | done] ].
Qed.

(** X10.  A screen-capture track outlives the call.  Whenever
    [startScreenShare] returns true, the track it captured is a new video
    track which neither [stopScreenShare] nor [endCall] ever stops:
    [stopScreenShare] only swaps the sender's track and [endCall] stops
    the tracks of the local stream, to which the screen track was never
    added.  After the hang-up the capture is as the browser delivered it. *)
Theorem screen_track_outlives_call platform p :
  (forall stream id, localStream (mgr p) = Some stream -> id ∈ stream ->
                     is_Some (tracks p !! id)) ->
  fst (startScreenShare platform p) = Normal true ->
  exists id t,
    tracks p !! id = None /\
    tracks (snd (startScreenShare platform p)) !! id = Some t /\
    kind t = "video" /\
    localStream (mgr (snd (startScreenShare platform p))) = localStream (mgr p) /\
    tracks (snd ((startScreenShare platform ;; stopScreenShare platform ;;
                  endCall passive) p)) !! id = Some t.
Proof.
  intros Hwf Htrue.
  assert (Hstart : exists id t,
            tracks p !! id = None /\
            tracks (snd (startScreenShare platform p)) !! id = Some t /\
            kind t = "video" /\
            localStream (mgr (snd (startScreenShare platform p)))
            = localStream (mgr p)).
  { revert Htrue. destruct p as [m u h tr].
    unfold startScreenShare, replace_video_track, on_pc. run.
    destruct (mediaGetDisplayMedia platform _) as [ts|e]; [|discriminate].
    pose proof (alloc_tracks_fresh ts h) as Hfresh.
    destruct (alloc_tracks ts h) as [ids h2]. cbn [fst] in Hfresh.
    destruct (tracks_of_kind "video" h2 ids) as [|v rest] eqn:Hv.
    { cbn [head]. destruct m as [[pc|] ls rs sock sid init ty ocs ors ols];
        [|discriminate].
      destruct (find_video_sender h2 pc); [|discriminate].
      by destruct (pcReplaceTrack platform pc n None). }
    destruct (tracks_of_kind_head _ _ _ _ _ Hv) as (Hin & t & Ht & Hk).
    cbn [head]. destruct m as [[pc|] ls rs sock sid init ty ocs ors ols];
      [|discriminate].
    destruct (find_video_sender h2 pc) as [i|].
    - destruct (pcReplaceTrack platform pc i (Some v)); [|discriminate].
      intros _. exists v, t. auto.
    - intros _. exists v, t. auto. }
  destruct Hstart as (id & t & Hnone & Hsome & Hkind & Hls).
  exists id, t. do 4 (split; [done|]).
  unfold bind at 1.
  destruct (startScreenShare platform p) as [[b|e] p1]; [|discriminate].
  cbn [fst snd] in *. unfold bind at 1.
  destruct (stream_and_track_kept_stopScreenShare platform id p1) as [Hls2 Hkept].
  specialize (Hkept t Hsome).
  destruct (stopScreenShare platform p1) as [[[]|e] p2]; cbn [snd] in *; [|done].
  rewrite endCall_passive. cbn [snd tracks].
  rewrite stop_all_lookup, Hls2, Hls.
  destruct (localStream (mgr p)) as [stream|] eqn:Hstream; cbn [default].
  - rewrite bool_decide_eq_false_2; [done|].
    intros Hin. destruct (Hwf stream id eq_refl Hin) as [t0 Ht0]. congruence.
  - by rewrite bool_decide_eq_false_2 by (apply not_elem_of_nil).
Qed.

Lemma screen_track_outlives_call_witness :
  exists id t,
    tracks page_in_call !! id = None /\
    tracks (snd (startScreenShare browser page_in_call)) !! id = Some t /\
    kind t = "video" /\
    localStream (mgr (snd (startScreenShare browser page_in_call)))
    = localStream (mgr page_in_call) /\
    tracks (snd ((startScreenShare browser ;; stopScreenShare browser ;;
                  endCall passive) page_in_call)) !! id = Some t.
Proof.
  apply (screen_track_outlives_call browser page_in_call).
  - intros stream id Hls Hin. vm_compute in Hls. injection Hls as <-.
    apply elem_of_cons in Hin as [->|Hin]; [by eexists|].
    apply elem_of_cons in Hin as [->|Hin]; [by eexists|].
    by apply elem_of_nil in Hin.
  - vm_compute. reflexivity.
Defined.

(** ** Answering an offer *)

(** X11.  When the browser accepts the remote offer and produces an
    answer, [handleOffer] applies the offer, makes the answer the local
    description and, if the socket is open, sends the peer
    [{ type: 'answer', answer: { sdp, type } }] with the answer's own
    [sdp] and [type]; it returns normally and touches nothing but the peer
    connection.  With the socket not open the answer is applied locally
    and never sent. *)
Theorem handleOffer_answers platform offer p pc d pc1 answer pc2 sdp ty :
  peerConnection (mgr p) = Some pc ->
  newRTCSessionDescription platform offer = Ok d ->
  pcSetRemoteDescription platform pc d = Ok pc1 ->
  pcCreateAnswer platform pc1 = Ok answer ->
  pcSetLocalDescription platform pc1 answer = Ok pc2 ->
  get_prop "sdp" answer = Ok sdp ->
  get_prop "type" answer = Ok ty ->
  handleOffer platform offer p
  = (Normal tt,
     {| mgr := set_peerConnection (Some pc2) (mgr p); ui := ui p;
        tracks := tracks p;
        trace := trace p
                 ++ [EvSetRemoteDescription d; EvSetLocalDescription answer]
                 ++ (if socket_is_open (mgr p)
                     then [EvSend (envelope "answer"
                                     (JObj [("sdp", sdp); ("type", ty)]))]
                     else []) |}).
Proof.
  destruct p as [m u h tr].
  destruct m as [pc0 ls rs sock sid init ty0 ocs ors ols]. simpl.
  intros -> Hnew Hset Hcreate Hlocal Hsdp Hty.
  unfold handleOffer, createAnswer, pc_call, on_pc, sendSignalingMessage,
    socket_is_open, envelope.
  run. rewrite Hnew. run. rewrite Hset. run. rewrite Hcreate. run.
  rewrite Hlocal. run. rewrite Hsdp. run. rewrite Hty. run.
  destruct sock as [[url []]|]; run; by rewrite <- ?app_assoc, ?app_nil_r.
Qed.

Lemma handleOffer_answers_witness :
  exists pc2,
    handleOffer browser (JObj [("sdp", JStr "v=0 offer"); ("type", JStr "offer")])
                page_awaiting_offer
    = (Normal tt,
       {| mgr := set_peerConnection (Some pc2) (mgr page_awaiting_offer);
          ui := ui page_awaiting_offer; tracks := tracks page_awaiting_offer;
          trace := trace page_awaiting_offer
                   ++ [EvSetRemoteDescription
                         (JObj [("sdp", JStr "v=0 offer"); ("type", JStr "offer")]);
                       EvSetLocalDescription
                         (JObj [("type", JStr "answer"); ("sdp", JStr "v=0 answer")])]
                   ++ (if socket_is_open (mgr page_awaiting_offer)
                       then [EvSend (envelope "answer"
                                       (JObj [("sdp", JStr "v=0 answer");
                                              ("type", JStr "answer")]))]
                       else []) |}).
Proof.
  eexists.
  eapply (handleOffer_answers browser _ page_awaiting_offer);
    vm_compute; reflexivity.
Defined.

(** ** The hang-up button, through the UI *)

Lemma ui_endCall_overflows_witness :
  exists p' evs,
    ui_endCall 2 (snd (ui_startCall browser 2 true "sess-1" "video" true page0))
    = (Throw (RangeError "Maximum call stack size exceeded"), p') /\
    trace p' = trace (snd (ui_startCall browser 2 true "sess-1" "video" true page0))
               ++ evs /\
    count (is_state_change "ended") evs = 3 /\
    callManager (ui p') = true.
Proof.
  apply (ui_endCall_overflows 2
           (snd (ui_startCall browser 2 true "sess-1" "video" true page0)));
    vm_compute; reflexivity.
Defined.

(** * The call timer *)

Lemma length_append (s t : string) :
  String.length (s +:+ t) = String.length s + String.length t.
Proof. induction s as [|c s IH]; simpl; [done|by rewrite IH]. Qed.

Lemma append_inj_length (s1 s2 t1 t2 : string) :
  String.length s1 = String.length s2 ->
  s1 +:+ t1 = s2 +:+ t2 -> s1 = s2 /\ t1 = t2.
Proof.
  revert s2. induction s1 as [|c s1 IH]; intros [|d s2] Hlen Heq;
    simpl in *; try discriminate; [done|].
  injection Heq as -> Heq. injection Hlen as Hlen.
  destruct (IH _ Hlen Heq) as [-> ->]. done.
Qed.

(** The decimal digits of a positive number do not start with a zero. *)
Lemma pretty_N_go_leading (x : N) : forall s,
  (0 < x)%N ->
  exists c rest, pretty_N_go x s = String c rest /\ String c "" <> "0".
Proof.
  induction (N.lt_wf_0 x) as [x _ IH]; intros s Hx.
  rewrite pretty_N_go_step by done.
  destruct (decide (x `div` 10 = 0)%N) as [Hq|Hq].
  - rewrite Hq, pretty_N_go_0. eexists _, _. split; [done|].
    assert (x < 10)%N as Hlt by (apply N.div_small_iff in Hq; lia).
    rewrite N.mod_small by done.
    assert (x = 1 \/ x = 2 \/ x = 3 \/ x = 4 \/ x = 5 \/ x = 6
            \/ x = 7 \/ x = 8 \/ x = 9)%N as Hcases by lia.
    destruct Hcases as [->|[->|[->|[->|[->|[->|[->|[->| ->]]]]]]]]; done.
  - apply IH; [apply N.div_lt; lia | by apply N.neq_0_lt_0].
Qed.

Lemma toString_leading (n : Z) :
  (0 < n)%Z -> exists c rest, toString n = String c rest /\ String c "" <> "0".
Proof.
  destruct n as [|q|q]; try lia. intros _.
  unfold toString, pretty, pretty_Z, pretty, pretty_positive, pretty, pretty_N.
  rewrite decide_False by done. by apply pretty_N_go_leading.
Qed.

Lemma toString_nonempty (n : Z) : (0 <= n)%Z -> toString n <> "".
Proof.
  intros Hn. destruct (decide (n = 0%Z)) as [->|Hne]; [done|].
  destruct (toString_leading n) as (c & r & -> & _); [lia|done].
Qed.

Lemma two_digits_inj (a b : Z) :
  (0 <= a)%Z -> (0 <= b)%Z -> two_digits a = two_digits b -> a = b.
Proof.
  intros Ha Hb. unfold two_digits, padStart.
  pose proof (toString_nonempty a Ha) as Hna.
  pose proof (toString_nonempty b Hb) as Hnb.
  assert (forall n s, (0 <= n)%Z -> toString n = "0" +:+ s -> n = 0%Z) as Hzero.
  { intros n s Hn Hs. destruct (decide (n = 0%Z)) as [|Hne]; [done|].
    destruct (toString_leading n) as (c & r & Hc & Hnz); [lia|].
    rewrite Hs in Hc. simpl in Hc. injection Hc as <- _. done. }
  destruct (toString a) as [|ca [|ca' ra]] eqn:Ea; [done| |];
    destruct (toString b) as [|cb [|cb' rb]] eqn:Eb; try done; simpl.
  - intros [= ->]. apply (inj pretty). unfold toString in *. congruence.
  - intros [= <- _ _]. rewrite (Hzero b _ Hb Eb) in Eb. discriminate Eb.
  - intros [= -> _ _]. rewrite (Hzero a _ Ha Ea) in Ea. discriminate Ea.
  - intros Heq. apply (inj pretty). unfold toString in *. congruence.
Qed.

Lemma two_digits_length (n : Z) :
  (0 <= n < 100)%Z -> String.length (two_digits n) = 2.
Proof.
  intros Hn.
  assert (forallb (fun k => Nat.eqb (String.length (two_digits (Z.of_nat k))) 2)
                  (seq 0 100) = true) as Hall by (vm_compute; reflexivity).
  rewrite forallb_forall in Hall.
  specialize (Hall (Z.to_nat n)). rewrite Z2Nat.id in Hall by lia.
  apply Nat.eqb_eq, Hall, in_seq. lia.
Qed.

Lemma two_digits_length_min (n : Z) : 2 <= String.length (two_digits n).
Proof.
  unfold two_digits, padStart.
  destruct (Nat.leb 2 (String.length (toString n))) eqn:E.
  - by apply Nat.leb_le.
  - apply Nat.leb_gt in E. rewrite length_append.
    destruct (toString n) as [|c [|c' r]]; simpl in *; lia.
Qed.

Lemma timer_parts_spec (ms : Z) :
  (0 <= ms)%Z ->
  let '(hours, minutes, seconds) := timer_parts ms in
  (hours * 3600 + minutes * 60 + seconds = ms / 1000 /\
   0 <= hours /\ 0 <= minutes < 60 /\ 0 <= seconds < 60)%Z.
Proof.
  intros Hms. unfold timer_parts.
  assert (0 <= ms / 1000)%Z as He by (apply Z.div_pos; lia).
  rewrite !Z.rem_mod_nonneg by lia.
  generalize dependent (ms / 1000)%Z. intros e He.
  Z.div_mod_to_equations. lia.
Qed.

(** X14 ([VideoCallUI.startTimer], the interval callback).  While the clock
    has not gone back, the timer shows [hours:minutes:seconds] of the whole
    seconds elapsed: the three numbers add up to them, minutes and seconds
    are below 60 and take exactly two characters each, hours take at least
    two and are never cut, and below a hundred hours the text is eight
    characters long. *)
Theorem timer_shows_elapsed (elapsed_ms : Z) :
  (0 <= elapsed_ms)%Z ->
  exists hours minutes seconds : Z,
    timer_text elapsed_ms
    = two_digits hours +:+ ":" +:+ two_digits minutes +:+ ":" +:+ two_digits seconds /\
    (hours * 3600 + minutes * 60 + seconds = elapsed_ms / 1000)%Z /\
    (0 <= hours)%Z /\ (0 <= minutes < 60)%Z /\ (0 <= seconds < 60)%Z /\
    String.length (two_digits minutes) = 2 /\
    String.length (two_digits seconds) = 2 /\
    2 <= String.length (two_digits hours) /\
    (toString hours = two_digits hours \/
     "0" +:+ toString hours = two_digits hours) /\
    ((elapsed_ms < 360000000)%Z -> String.length (timer_text elapsed_ms) = 8).
Proof.
  intros Hms. pose proof (timer_parts_spec elapsed_ms Hms) as Hspec.
  unfold timer_text.
  destruct (timer_parts elapsed_ms) as [[hours minutes] seconds].
  destruct Hspec as (Hsum & Hh & Hm & Hs).
  exists hours, minutes, seconds.
  split; [done|]. split; [done|]. split; [done|]. split; [done|].
  split; [done|].
  split; [apply two_digits_length; lia|].
  split; [apply two_digits_length; lia|].
  split; [apply two_digits_length_min|].
  split.
  - pose proof (toString_nonempty hours Hh) as Hne.
    unfold two_digits, padStart.
    destruct (toString hours) as [|c [|c' r]]; [done|by right|by left].
  - intros Hlt.
    assert (hours < 100)%Z as Hh100.
    { assert (elapsed_ms / 1000 < 360000)%Z
        by (apply Z.div_lt_upper_bound; lia). lia. }
    rewrite !length_append, !two_digits_length by lia. done.
Qed.

Lemma timer_shows_elapsed_witness :
  exists hours minutes seconds : Z,
    timer_text 3725999
    = two_digits hours +:+ ":" +:+ two_digits minutes +:+ ":" +:+ two_digits seconds /\
    (hours * 3600 + minutes * 60 + seconds = 3725999 / 1000)%Z /\
    (0 <= hours)%Z /\ (0 <= minutes < 60)%Z /\ (0 <= seconds < 60)%Z /\
    String.length (two_digits minutes) = 2 /\
    String.length (two_digits seconds) = 2 /\
    2 <= String.length (two_digits hours) /\
    (toString hours = two_digits hours \/
     "0" +:+ toString hours = two_digits hours) /\
    ((3725999 < 360000000)%Z -> String.length (timer_text 3725999) = 8).
Proof. apply (timer_shows_elapsed 3725999). lia. Defined.

(** X15 ([VideoCallUI.startTimer], the interval callback).  The text
    identifies the duration: two readings of the timer agree only when the
    same number of whole seconds has elapsed, also past 99 hours, where the
    hours take more than two characters. *)
Theorem timer_text_reads_back (a b : Z) :
  (0 <= a)%Z -> (0 <= b)%Z ->
  timer_text a = timer_text b -> (a / 1000 = b / 1000)%Z.
Proof.
  intros Ha Hb Heq.
  pose proof (timer_parts_spec a Ha) as Sa.
  pose proof (timer_parts_spec b Hb) as Sb.
  unfold timer_text in Heq.
  destruct (timer_parts a) as [[ha ma] sa], (timer_parts b) as [[hb mb] sb].
  destruct Sa as (<- & Hha & Hma & Hsa), Sb as (<- & Hhb & Hmb & Hsb).
  assert (String.length (two_digits ha) = String.length (two_digits hb)) as Hlen.
  { apply (f_equal String.length) in Heq.
    rewrite !length_append, (two_digits_length ma), (two_digits_length sa),
      (two_digits_length mb), (two_digits_length sb) in Heq by lia.
    simpl in Heq. lia. }
  apply append_inj_length in Heq as [Hh Heq]; [|done].
  apply (append_inj_length ":" ":") in Heq as [_ Heq]; [|done].
  apply append_inj_length in Heq as [Hm Heq];
    [|by rewrite !two_digits_length by lia].
  apply (append_inj_length ":" ":") in Heq as [_ Hs]; [|done].
  apply two_digits_inj in Hh, Hm, Hs; try lia.
Qed.

Lemma timer_text_reads_back_witness :
  (360000000 / 1000 = 360000999 / 1000)%Z.
Proof.
  apply (timer_text_reads_back 360000000 360000999); [lia | lia |].
  vm_compute. reflexivity.
Defined.

(** * File uploads *)

Section UploadsProperties.

Variable formatFileSize : N -> string.

Lemma notified_nil z : notified [] z = z.
Proof. destruct z. unfold notified. simpl. by rewrite app_nil_r. Qed.

Lemma notified_app ms ns z :
  notified ns (notified ms z) = notified (ms ++ ns) z.
Proof. unfold notified. simpl. by rewrite app_assoc. Qed.

Lemma validate_spec file z :
  validate file z
  = (accepted file, notified (option_list (rejection file)) z).
Proof.
  unfold validate, accepted, rejection, maxSize.
  change (10 * 1024 * 1024)%N with 10485760%N.
  destruct (10485760 <? file_size file)%N eqn:Hsize.
  - apply N.ltb_lt in Hsize.
    replace (file_size file <=? 10485760)%N with false
      by (symmetry; apply N.leb_gt; lia).
    done.
  - apply N.ltb_ge in Hsize.
    replace (file_size file <=? 10485760)%N with true
      by (symmetry; apply N.leb_le; lia).
    destruct (includes allowedTypes (file_type file)); simpl; [|done].
    by rewrite notified_nil.
Qed.

Lemma filter_files_spec files : forall z,
  filter_files files z
  = (List.filter accepted files, notified (omap rejection files) z).
Proof.
  induction files as [|file rest IH]; intros z; simpl.
  - by rewrite notified_nil.
  - rewrite validate_spec, IH.
    rewrite notified_app. f_equal. f_equal.
    by destruct (rejection file).
Qed.

Lemma accepted_rejection file :
  accepted file = true <-> rejection file = None.
Proof.
  unfold accepted, rejection.
  destruct (10485760 <? file_size file)%N eqn:Hsize.
  - apply N.ltb_lt in Hsize.
    replace (file_size file <=? 10485760)%N with false
      by (symmetry; apply N.leb_gt; lia).
    done.
  - apply N.ltb_ge in Hsize.
    replace (file_size file <=? 10485760)%N with true
      by (symmetry; apply N.leb_le; lia).
    by destruct (includes allowedTypes (file_type file)).
Qed.

Lemma rejections_length files :
  List.filter accepted files = [] ->
  length (omap rejection files) = length files.
Proof.
  induction files as [|file rest IH]; [done|].
  cbn [List.filter omap list_omap]. 
  destruct (accepted file) eqn:Hacc; [done|]. intros Hrest.
  destruct (rejection file) eqn:Hrej.
  - cbn [length]. f_equal. by apply IH.
  - apply accepted_rejection in Hrej. congruence.
Qed.

Lemma includes_allowedTypes t :
  includes allowedTypes t = true ->
  t = "image/jpeg" \/ t = "image/png" \/ t = "image/gif"
  \/ t = "application/pdf" \/ t = "text/plain".
Proof.
  unfold includes, allowedTypes. simpl.
  rewrite !orb_true_iff, !String.eqb_eq. intuition discriminate.
Qed.

Lemma accepted_document_icon file :
  accepted file = true -> is_image file = false ->
  DocumentData (file_name file) (formatFileSize (file_size file))
               (getFileIcon (file_type file))
  = document_preview formatFileSize file.
Proof.
  unfold accepted, is_image, document_preview.
  intros [_ Hty]%andb_true_iff Himg.
  apply includes_allowedTypes in Hty as [Hty|[Hty|[Hty|[Hty|Hty]]]];
    rewrite Hty in *; try discriminate Himg; done.
Qed.

Lemma process_keeps file z :
  notifications (process formatFileSize file z) = notifications z /\
  input_files (process formatFileSize file z) = input_files z /\
  has_preview (process formatFileSize file z) = has_preview z /\
  has_uploadText (process formatFileSize file z) = has_uploadText z /\
  reading (process formatFileSize file z)
  = reading z ++ (if is_image file then [file] else []).
Proof.
  unfold process, is_image, handleImageFile, handleDocumentFile, updatePreview.
  destruct (String.prefix "image/" (file_type file)); simpl.
  - done.
  - destruct (has_preview z) eqn:Hp; simpl; rewrite ?Hp, app_nil_r; done.
Qed.

Lemma fold_process_keeps files : forall z,
  let z' := fold_left (fun z file => process formatFileSize file z) files z in
  notifications z' = notifications z /\
  input_files z' = input_files z /\
  has_preview z' = has_preview z /\
  has_uploadText z' = has_uploadText z /\
  reading z' = reading z ++ List.filter is_image files.
Proof.
  induction files as [|file rest IH]; intros z; simpl.
  - by rewrite app_nil_r.
  - destruct (IH (process formatFileSize file z)) as (-> & -> & -> & -> & ->).
    destruct (process_keeps file z) as (-> & -> & -> & -> & ->).
    rewrite <- app_assoc. by destruct (is_image file).
Qed.

Lemma process_preview file z :
  has_preview z = true ->
  let z' := process formatFileSize file z in
  if is_image file then
    preview z' = preview z /\ preview_shown z' = preview_shown z /\
    uploadText_shown z' = uploadText_shown z /\
    announcements z' = announcements z
  else
    preview z'
    = Some (DocumentData (file_name file) (formatFileSize (file_size file))
                         (getFileIcon (file_type file))) /\
    preview_shown z' = true /\
    uploadText_shown z'
    = (if has_uploadText z then false else uploadText_shown z) /\
    announcements z'
    = announcements z ++ ["File " +:+ dquote +:+ file_name file +:+ dquote
                          +:+ " uploaded successfully"].
Proof.
  intros Hprev. unfold process, is_image, handleImageFile, handleDocumentFile,
    updatePreview.
  destruct (String.prefix "image/" (file_type file)); simpl; [done|].
  rewrite Hprev. done.
Qed.

Lemma fold_process_preview files : forall z,
  has_preview z = true ->
  let z' := fold_left (fun z file => process formatFileSize file z) files z in
  match last (documents files) with
  | Some file =>
      preview z'
      = Some (DocumentData (file_name file) (formatFileSize (file_size file))
                           (getFileIcon (file_type file))) /\
      preview_shown z' = true /\
      uploadText_shown z'
      = (if has_uploadText z then false else uploadText_shown z) /\
      last (announcements z')
      = Some ("File " +:+ dquote +:+ file_name file +:+ dquote
              +:+ " uploaded successfully")
  | None =>
      preview z' = preview z /\ preview_shown z' = preview_shown z /\
      uploadText_shown z' = uploadText_shown z /\
      announcements z' = announcements z
  end.
Proof.
  induction files as [|file rest IH]; intros z Hprev; simpl; [done|].
  destruct (process_keeps file z) as (_ & _ & Hp & Hu & _).
  specialize (IH (process formatFileSize file z)). rewrite Hp, Hu in IH.
  specialize (IH Hprev). simpl in IH.
  pose proof (process_preview file z Hprev) as Hstep. simpl in Hstep.
  unfold documents in *. simpl.
  destruct (is_image file) eqn:Himg; simpl.
  - destruct Hstep as (Hs1 & Hs2 & Hs3 & Hs4).
    rewrite Hs1, Hs2, Hs3, Hs4 in IH. done.
  - destruct Hstep as (Hs1 & Hs2 & Hs3 & Hs4).
    rewrite Hs1, Hs2, Hs3, Hs4 in IH.
    rewrite last_cons. destruct (last _) as [g|].
    + destruct IH as (-> & -> & -> & ->). by destruct (has_uploadText z).
    + destruct IH as (-> & -> & -> & ->). by rewrite last_snoc.
Qed.

Lemma handleFiles_run files z :
  handleFiles formatFileSize files z
  = match List.filter accepted files with
    | [] => notified (omap rejection files) z
    | validFiles =>
        set_input_files validFiles
          (fold_left (fun z file => process formatFileSize file z) validFiles
                     (notified (omap rejection files) z))
    end.
Proof.
  unfold handleFiles. destruct files as [|file rest].
  - simpl. by rewrite notified_nil.
  - rewrite filter_files_spec.
    by destruct (List.filter accepted (file :: rest)).
Qed.

(** X16 ([handleFiles]).  Every file that is over 10 MB or not of an
    allowed type gets one error notification, in the order of the
    selection, the size being checked first; the files that pass are kept
    in order.  When none passes, nothing but the notifications changes;
    otherwise [input.files] becomes exactly the files that passed and a read
    is started for each image among them.  No file over 10 MB and no file of
    another type is ever put into the input by [handleFiles]. *)
Theorem handleFiles_validates files z :
  let z' := handleFiles formatFileSize files z in
  let validFiles := List.filter accepted files in
  notifications z' = notifications z ++ omap rejection files /\
  match validFiles with
  | [] => z' = notified (omap rejection files) z
  | _ =>
      input_files z' = validFiles /\
      reading z' = reading z ++ List.filter is_image validFiles
  end /\
  Forall (fun file => (file_size file <= 10485760)%N /\
                      file_type file ∈ allowedTypes) validFiles.
Proof.
  simpl. rewrite handleFiles_run.
  split; [|split].
  - destruct (List.filter accepted files) as [|f l]; [done|].
    simpl input_files.
    pose proof (fold_process_keeps (f :: l) (notified (omap rejection files) z))
      as (Hn & _). simpl in Hn. simpl. by rewrite Hn.
  - destruct (List.filter accepted files) as [|f l] eqn:Hf; [done|].
    split; [done|].
    pose proof (fold_process_keeps (f :: l) (notified (omap rejection files) z))
      as (_ & _ & _ & _ & Hr). simpl in Hr. simpl. by rewrite Hr.
  - apply Forall_forall. intros file Hin.
    apply list_elem_of_In, filter_In in Hin as [_ Hacc].
    unfold accepted in Hacc. apply andb_true_iff in Hacc as [Hsize Hty].
    split; [by apply N.leb_le|].
    unfold includes in Hty. apply existsb_exists in Hty as (t & Hin & Heq).
    apply String.eqb_eq in Heq as ->. by apply list_elem_of_In.
Qed.

(** X17 ([handleFiles], the input's [change] listener).  A selection made
    through the file dialog in which no file passes stays in [input.files]:
    [handleFiles] returns before it would replace the input's files, so the
    rejected files remain selected, each with one error notification, and
    the preview is untouched. *)
Theorem rejected_selection_stays files z :
  List.filter accepted files = [] ->
  let z' := input_change formatFileSize files z in
  input_files z' = files /\
  length (notifications z') = length (notifications z) + length files /\
  Forall (fun n => snd n = "error") (omap rejection files) /\
  preview z' = preview z /\ preview_shown z' = preview_shown z /\
  reading z' = reading z /\ announcements z' = announcements z.
Proof.
  intros Hnone. simpl. unfold input_change.
  rewrite handleFiles_run, Hnone. simpl.
  rewrite length_app, rejections_length by done.
  repeat split; try done.
  clear. induction files as [|file rest IH]; simpl; [done|].
  unfold rejection at 1.
  destruct (10485760 <? file_size file)%N; [by constructor|].
  destruct (includes allowedTypes (file_type file)); [done|by constructor].
Qed.

(** X18 ([handleFiles], [handleDocumentFile], [updatePreview],
    [getFileIcon]).  In a zone with a preview element the documents are
    previewed one over the other, so the preview that stays is the one of
    the last accepted document: its name, its size text and the icon of a
    PDF or of a text, never the default paper clip; the upload text is
    hidden and the last announcement names that file. *)
Theorem last_document_previewed files z file :
  has_preview z = true ->
  last (documents (List.filter accepted files)) = Some file ->
  let z' := handleFiles formatFileSize files z in
  preview z' = Some (document_preview formatFileSize file) /\
  preview_shown z' = true /\
  (has_uploadText z = true -> uploadText_shown z' = false) /\
  last (announcements z')
  = Some ("File " +:+ dquote +:+ file_name file +:+ dquote
          +:+ " uploaded successfully").
Proof.
  intros Hprev Hlast. cbv zeta. rewrite handleFiles_run.
  destruct (List.filter accepted files) as [|f l] eqn:Hf; [done|].
  pose proof (fold_process_preview (f :: l) (notified (omap rejection files) z)
                Hprev) as Hfold.
  cbv zeta in Hfold. rewrite Hlast in Hfold.
  destruct Hfold as (Hp & Hs & Hu & Ha).
  cbn [preview preview_shown uploadText_shown announcements set_input_files].
  rewrite Hp, Hs, Hu, Ha.
  apply last_Some_elem_of in Hlast. unfold documents in Hlast.
  apply list_elem_of_In, filter_In in Hlast as [Hin Hdoc].
  rewrite <- Hf in Hin. apply filter_In in Hin as [_ Hacc].
  apply negb_true_iff in Hdoc.
  rewrite accepted_document_icon by done.
  split; [done|]. split; [done|]. split; [|done].
  intros Hut. simpl. by rewrite Hut.
Qed.

End UploadsProperties.

Lemma rejected_selection_stays_witness :
  List.filter accepted [film_mp4] = [] /\
  input_files (input_change size_in_bytes [film_mp4] zone0) = [film_mp4].
Proof.
  split; [reflexivity|].
  exact (proj1 (rejected_selection_stays size_in_bytes [film_mp4] zone0 eq_refl)).
Defined.

Lemma last_document_previewed_witness :
  preview (handleFiles size_in_bytes [notes_txt; film_mp4; photo_png] zone0)
  = Some (document_preview size_in_bytes notes_txt).
Proof.
  exact (proj1 (last_document_previewed size_in_bytes
                  [notes_txt; film_mp4; photo_png] zone0 notes_txt
                  eq_refl eq_refl)).
Defined.

(** * The call controls and the incoming-call modal *)

Ltac d_run :=
  cbv [d_bind d_ret d_throw d_try_catch d_self d_dom lift set_dom_page
       set_incomingCallModal set_micBtn_muted set_videoBtn_disabled
       set_screenBtn_active fetch csrf_token dom_page incomingCallModalShown
       micBtn_muted videoBtn_disabled screenBtn_active requests].

Lemma ui_startCall_returns platform depth hasPermissions id ty init p :
  fst (ui_startCall platform depth hasPermissions id ty init p) = Normal tt.
Proof.
  unfold ui_startCall, UI.startCall, try_catch.
  match goal with |- context [?body p] =>
    match type of body with M unit => destruct (body p) as [[[]|e] p'] end
  end; done.
Qed.

Section ControlsProperties.

Variable platform : Platform.
Variable depth : nat.
Variable hasPermissions : bool.
Variable getCSRFToken : Result string.
Variable server : Request -> Result bool.

(** X19 ([acceptCall], [getCurrentCallData], [acceptIncomingCall],
    [hideIncomingCall]).  Accepting an invitation the server confirms is
    [startCall] of that session as a voice call, not as initiator, whatever
    kind of call was offered: the call type handed on is the constant of
    [getCurrentCallData].  One request is sent, [startCall] returns, and
    whether or not the call could be started the modal is hidden and
    [currentCallSessionId], which [startCall] has just set, is null again. *)
Theorem acceptCall_starts_voice_call s callSessionId token :
  currentCallSessionId (ui (dom_page s)) = Some callSessionId ->
  callSessionId <> "" ->
  getCSRFToken = Ok token ->
  server (accept_request callSessionId token) = Ok true ->
  exists p',
    ui_startCall platform depth hasPermissions callSessionId "voice" false
                 (dom_page s) = (Normal tt, p') /\
    acceptCall platform depth hasPermissions getCSRFToken server s
    = (Normal tt,
       {| dom_page := snd (update_ui (UI.set_currentCallSessionId None) p');
          incomingCallModalShown := false;
          micBtn_muted := micBtn_muted s;
          videoBtn_disabled := videoBtn_disabled s;
          screenBtn_active := screenBtn_active s;
          requests := requests s ++ [accept_request callSessionId token] |}) /\
    currentCallSessionId
      (ui (dom_page (snd (acceptCall platform depth hasPermissions
                                     getCSRFToken server s)))) = None.
Proof.
  intros Hid Hne Htoken Hok.
  pose proof (ui_startCall_returns platform depth hasPermissions callSessionId
                "voice" false (dom_page s)) as Hret.
  destruct (ui_startCall platform depth hasPermissions callSessionId "voice"
              false (dom_page s)) as [c p'] eqn:Hstart.
  simpl in Hret. subst c. exists p'. split; [done|].
  assert (acceptCall platform depth hasPermissions getCSRFToken server s
    = (Normal tt,
       {| dom_page := snd (update_ui (UI.set_currentCallSessionId None) p');
          incomingCallModalShown := false;
          micBtn_muted := micBtn_muted s;
          videoBtn_disabled := videoBtn_disabled s;
          screenBtn_active := screenBtn_active s;
          requests := requests s ++ [accept_request callSessionId token] |}))
    as Hrun.
  { unfold acceptCall, getCurrentCallData, acceptIncomingCall, hideIncomingCall.
    destruct s as [p modal mic video screen reqs]. simpl in Hid, Hstart.
    d_run. rewrite Hid.
    apply String.eqb_neq in Hne. rewrite Hne.
    rewrite Htoken, Hok. cbn [snd]. rewrite Hstart. done. }
  split; [done|]. rewrite Hrun. done.
Qed.

(** X20 ([acceptCall], [acceptIncomingCall]).  When the invitation cannot
    be confirmed (the page has no token field, the request fails, or the
    response is not ok), no call is started and the invitation stays as it
    is: the manager, the tracks, the modal and [currentCallSessionId] are
    unchanged; the error is logged and shown once, as 'Failed to accept
    call'. *)
Theorem acceptCall_failure_keeps_invitation s callSessionId :
  currentCallSessionId (ui (dom_page s)) = Some callSessionId ->
  callSessionId <> "" ->
  (forall token, getCSRFToken = Ok token ->
                 server (accept_request callSessionId token) <> Ok true) ->
  exists error sent,
    acceptCall platform depth hasPermissions getCSRFToken server s
    = (Normal tt,
       {| dom_page :=
            with_events [EvConsoleError "Failed to accept call:" error;
                         EvShowError "Failed to accept call" (err_message error)]
                        (dom_page s);
          incomingCallModalShown := incomingCallModalShown s;
          micBtn_muted := micBtn_muted s;
          videoBtn_disabled := videoBtn_disabled s;
          screenBtn_active := screenBtn_active s;
          requests := requests s ++ sent |}) /\
    (getCSRFToken = Err error /\ sent = [] \/
     exists token,
       getCSRFToken = Ok token /\ sent = [accept_request callSessionId token] /\
       (server (accept_request callSessionId token) = Err error \/
        server (accept_request callSessionId token) = Ok false /\
        error = Error "Failed to accept call")).
Proof.
  intros Hid Hne Hfail.
  unfold acceptCall, getCurrentCallData, acceptIncomingCall.
  destruct s as [p modal mic video screen reqs]. simpl in Hid.
  d_run. rewrite Hid. apply String.eqb_neq in Hne. rewrite Hne. cbn [snd].
  unfold UI.showError, with_events. run.
  destruct getCSRFToken as [token|e] eqn:Htoken.
  - specialize (Hfail token eq_refl).
    destruct (server (accept_request callSessionId token)) as [[|]|e] eqn:Hs.
    + done.
    + exists (Error "Failed to accept call"), [accept_request callSessionId token].
      split; [by rewrite <- app_assoc|]. right. exists token. auto.
    + exists e, [accept_request callSessionId token].
      split; [by rewrite <- app_assoc|]. right. exists token. auto.
  - exists e, []. rewrite app_nil_r. split; [by rewrite <- app_assoc|]. by left.
Qed.

(** X21 ([declineCall], [hideIncomingCall]).  Declining always ends with the
    modal hidden and [currentCallSessionId] null, and never fails: a missing
    token field or a failed request is logged and nothing more.  The server
    is asked at most once, and only when a session id is held; the response
    is not looked at.  The call manager and the tracks are not touched. *)
Theorem declineCall_always_hides s :
  exists s' evs sent,
    declineCall getCSRFToken server s = (Normal tt, s') /\
    incomingCallModalShown s' = false /\
    currentCallSessionId (ui (dom_page s')) = None /\
    mgr (dom_page s') = mgr (dom_page s) /\
    tracks (dom_page s') = tracks (dom_page s) /\
    trace (dom_page s') = trace (dom_page s) ++ evs /\
    requests s' = requests s ++ sent /\
    (evs = [] \/ exists error, evs = [EvConsoleError "Failed to decline call:" error]) /\
    (sent = [] \/
     exists callSessionId token,
       currentCallSessionId (ui (dom_page s)) = Some callSessionId /\
       callSessionId <> "" /\ getCSRFToken = Ok token /\
       sent = [decline_request callSessionId token]).
Proof.
  unfold declineCall, hideIncomingCall.
  destruct s as [p modal mic video screen reqs]. d_run.
  destruct (currentCallSessionId (ui p)) as [id|] eqn:Hid.
  - destruct (String.eqb id "") eqn:Hne.
    + eexists _, [], []. rewrite !app_nil_r. split; [done|]. simpl. auto 10.
    + apply String.eqb_neq in Hne.
      destruct getCSRFToken as [token|e] eqn:Htoken.
      * destruct (server (decline_request id token)) as [ok|e] eqn:Hs.
        -- eexists _, [], [decline_request id token]. rewrite app_nil_r.
           split; [done|]. simpl.
           repeat (split; [done|]). split; [by left|].
           right. exists id, token. auto.
        -- eexists _, [EvConsoleError "Failed to decline call:" e],
             [decline_request id token].
           split; [done|]. simpl.
           repeat (split; [done|]). split; [right; by exists e|].
           right. exists id, token. auto.
      * eexists _, [EvConsoleError "Failed to decline call:" e], [].
        rewrite app_nil_r. split; [done|]. simpl.
        repeat (split; [done|]). split; [right; by exists e|]. by left.
  - eexists _, [], []. rewrite !app_nil_r. split; [done|]. simpl. auto 10.
Qed.

(** X22 ([VideoCallUI.toggleMic], [VideoCallUI.toggleVideo]).  After a
    press the button shows the state of the track: the microphone button is
    marked muted exactly when the first audio track of the local stream is
    not enabled (or there is none), the camera button disabled exactly when
    the first video track is not; what the buttons showed before does not
    matter. *)
Theorem mute_buttons_show_track_state s :
  callManager (ui (dom_page s)) = true ->
  let s1 := snd (toggleMic s) in
  let s2 := snd (ui_toggleVideo s) in
  micBtn_muted s1 = negb (first_track_enabled "audio" (dom_page s1)) /\
  videoBtn_disabled s2 = negb (first_track_enabled "video" (dom_page s2)) /\
  videoBtn_disabled s1 = videoBtn_disabled s /\
  micBtn_muted s2 = micBtn_muted s.
Proof.
  intros Hcm.
  assert (forall k, let r := toggle k (dom_page s) in
            fst r = Normal (first_track_enabled k (snd r))) as Htoggle.
  { intros k. destruct s as [[m u h tr] modal mic video screen reqs].
    unfold first_track_enabled. simpl.
    destruct (localStream m) as [stream|] eqn:Hls.
    - destruct (tracks_of_kind k h stream) as [|a rest] eqn:Hk.
      + rewrite (toggle_none k h stream m u tr Hls Hk). simpl.
        by rewrite Hls, Hk.
      + rewrite (toggle_some k h stream a rest m u tr Hls Hk). simpl.
        by rewrite Hls, tracks_of_kind_alter_flip, Hk.
    - rewrite (toggle_absent k {| mgr := m; ui := u; tracks := h; trace := tr |})
        by (by left).
      simpl. by rewrite Hls. }
  pose proof (Htoggle "audio") as Ha. pose proof (Htoggle "video") as Hv.
  cbv zeta in Ha, Hv.
  unfold toggleMic, ui_toggleVideo, toggleAudio, toggleVideo.
  destruct s as [p modal mic video screen reqs]. simpl in Hcm, Ha, Hv.
  d_run. rewrite Hcm.
  destruct (toggle "audio" p) as [[ea|e] pa]; [|done].
  destruct (toggle "video" p) as [[ev|e] pv]; [|done].
  simpl in Ha, Hv. injection Ha as ->. injection Hv as ->.
  destruct (first_track_enabled "audio" pa) eqn:Ea,
           (first_track_enabled "video" pv) eqn:Ev;
    simpl; rewrite ?Ea, ?Ev; done.
Qed.

(** X23 ([VideoCallUI.toggleScreenShare], [stopScreenShare]).  Pressing the
    screen button while it is active always clears it, because
    [stopScreenShare] reports nothing: when the camera cannot be had back,
    the error is logged, the peer connection and its senders are exactly as
    before, and the button shows that sharing has stopped. *)
Theorem screen_button_cleared_when_stop_fails s error :
  callManager (ui (dom_page s)) = true ->
  screenBtn_active s = true ->
  mediaGetUserMedia platform (JObj [("video", JBool true)]) = Err error ->
  toggleScreenShare platform s
  = (Normal tt,
     {| dom_page := with_events [EvConsoleError "Error stopping screen share:" error]
                                (dom_page s);
        incomingCallModalShown := incomingCallModalShown s;
        micBtn_muted := micBtn_muted s;
        videoBtn_disabled := videoBtn_disabled s;
        screenBtn_active := false;
        requests := requests s |}).
Proof.
  intros Hcm Hactive Hdenied.
  unfold toggleScreenShare, stopScreenShare.
  destruct s as [[m u h tr] modal mic video screen reqs].
  simpl in Hcm, Hactive. subst screen.
  d_run. simpl. rewrite Hcm. run. rewrite Hdenied. done.
Qed.

End ControlsProperties.

Lemma acceptCall_starts_voice_call_witness :
  exists p',
    ui_startCall browser 2 true "sess-7" "voice" false (dom_page dom_invited)
    = (Normal tt, p') /\
    callType (mgr p') = "voice" /\
    currentCallSessionId
      (ui (dom_page (snd (acceptCall browser 2 true (Ok "token-1") server_ok
                                     dom_invited)))) = None.
Proof.
  destruct (acceptCall_starts_voice_call browser 2 true (Ok "token-1") server_ok
              dom_invited "sess-7" "token-1")
    as (p' & Hstart & _ & Hid); [reflexivity|discriminate|reflexivity..|].
  exists p'. split; [exact Hstart|]. split; [|exact Hid].
  vm_compute in Hstart. by injection Hstart as <-.
Defined.

Lemma acceptCall_failure_keeps_invitation_witness :
  exists error sent,
    incomingCallModalShown
      (snd (acceptCall browser 2 true (Ok "token-1") server_down dom_invited))
    = true /\
    trace (dom_page (snd (acceptCall browser 2 true (Ok "token-1") server_down
                                     dom_invited)))
    = [EvConsoleError "Failed to accept call:" error;
       EvShowError "Failed to accept call" (err_message error)] /\
    sent = [accept_request "sess-7" "token-1"].
Proof.
  destruct (acceptCall_failure_keeps_invitation browser 2 true (Ok "token-1")
              server_down dom_invited "sess-7")
    as (error & sent & Hrun & Hcase); [reflexivity|discriminate|..].
  { intros token [= <-]. discriminate. }
  exists error, sent. rewrite Hrun. split; [reflexivity|]. split; [reflexivity|].
  destruct Hcase as [[Hno _]|(token & [= <-] & Hsent & _)];
    [discriminate Hno|exact Hsent].
Defined.

Lemma mute_buttons_show_track_state_witness :
  micBtn_muted (snd (toggleMic (dom_of (snd (ui_startCall browser 2 true
                      "sess-1" "video" true page0)))))
  = negb (first_track_enabled "audio"
            (dom_page (snd (toggleMic (dom_of (snd (ui_startCall browser 2 true
                      "sess-1" "video" true page0))))))).
Proof.
  refine (proj1 (mute_buttons_show_track_state
                   (dom_of (snd (ui_startCall browser 2 true
                                   "sess-1" "video" true page0))) _)).
  vm_compute. reflexivity.
Defined.

Lemma screen_button_cleared_when_stop_fails_witness :
  screenBtn_active
    (snd (toggleScreenShare browser_denying
            (snd (set_screenBtn_active true
                    (dom_of (snd (ui_startCall browser 2 true
                                    "sess-1" "video" true page0)))))))
  = false.
Proof.
  rewrite (screen_button_cleared_when_stop_fails browser_denying
             (snd (set_screenBtn_active true
                     (dom_of (snd (ui_startCall browser 2 true
                                     "sess-1" "video" true page0)))))
             (NotAllowedError "Permission denied"));
    [reflexivity | vm_compute; reflexivity | reflexivity | reflexivity].
Defined.
